(** * FileToMD: the batch conversion driver of [python/converter.py]

    A shallow embedding of the command-line converter: the parts of
    [pathlib] it calls, a tree model of the file system it reads and
    writes, the records it prints, and its functions ([emit_status],
    [get_unique_output_path], [collect_files], [get_output_path],
    [convert_file], [main]) in a state-and-exception monad over that
    world.  Docling, the document converter, is a parameter. *)

From Stdlib Require Import List String Ascii Bool Arith Lia FinFun.
From Stdlib Require Import Decimal DecimalNat DecimalString.
Import ListNotations.
Local Open Scope string_scope.
Local Open Scope list_scope.

(** ** Strings as Python uses them here

    A string is the UTF-8 bytes of a Python [str]. *)

Module pystr.

(** [str(n)] and the [{n}] of an f-string, for a non-negative integer. *)
Definition of_nat (n : nat) : string :=
  NilEmpty.string_of_uint (Nat.to_uint n).

(** [c.lower()] on one ASCII character; other bytes are left alone. *)
Definition lower_char (c : ascii) : ascii :=
  let n := nat_of_ascii c in
  if Nat.leb 65 n && Nat.leb n 90 then ascii_of_nat (n + 32) else c.

(** [s.lower()]. *)
Fixpoint lower (s : string) : string :=
  match s with
  | EmptyString => EmptyString
  | String c s' => String (lower_char c) (lower s')
  end.

(** [s.rfind(c)], with [None] for Python's [-1]. *)
Fixpoint rfind (c : ascii) (s : string) : option nat :=
  match s with
  | EmptyString => None
  | String a s' =>
      match rfind c s' with
      | Some i => Some (S i)
      | None => if Ascii.eqb a c then Some 0 else None
      end
  end.

(** [s.split(sep)] for a one-character separator. *)
Fixpoint split (sep : ascii) (s : string) : list string :=
  match s with
  | EmptyString => [EmptyString]
  | String a s' =>
      if Ascii.eqb a sep then EmptyString :: split sep s'
      else match split sep s' with
           | [] => [String a EmptyString]
           | w :: ws => String a w :: ws
           end
  end.

(** [sep.join(l)]. *)
Fixpoint join (sep : string) (l : list string) : string :=
  match l with
  | [] => EmptyString
  | [w] => w
  | w :: ws => (w ++ sep ++ join sep ws)%string
  end.

(** [s.encode('utf-8')] does not raise: [s] holds no lone surrogate.
    UTF-8 has no bytes for the code points [U+D800] to [U+DFFF]; a
    [str] that holds one is here the bytes ['surrogatepass'] gives it,
    [ED] and then a byte from [A0] on, which no encoded text has. *)
Fixpoint encodable (s : string) : bool :=
  match s with
  | EmptyString => true
  | String a s' =>
      match s' with
      | EmptyString => true
      | String b _ =>
          negb (Nat.eqb (nat_of_ascii a) 237 && Nat.leb 160 (nat_of_ascii b))
          && encodable s'
      end
  end.

End pystr.

(** ** pathlib: pure POSIX paths

    A path is kept the way [PurePosixPath] keeps it after parsing: the
    root ([""], ["/"] or ["//"]) and the list of components, without
    empty and ["."] components.  [".."] components are kept as they are,
    as pathlib keeps them. *)

Module pathlib.

Record Path : Type := mkPath { root : string; parts : list string }.

(** [posixpath.splitroot]: no root, one slash, or exactly two. *)
Definition splitroot (s : string) : string * string :=
  match s with
  | String "/"%char (String "/"%char (String "/"%char r)) =>
      ("/", String "/"%char (String "/"%char r))
  | String "/"%char (String "/"%char r) => ("//", r)
  | String "/"%char r => ("/", r)
  | _ => ("", s)
  end.

Definition kept_component (x : string) : bool :=
  negb (String.eqb x "") && negb (String.eqb x ".").

(** [Path(s)]. *)
Definition of_str (s : string) : Path :=
  let (r, rel) := splitroot s in
  mkPath r (filter kept_component (pystr.split "/" rel)).

(** [str(p)]. *)
Definition str (p : Path) : string :=
  match root p, parts p with
  | EmptyString, [] => "."
  | r, t => (r ++ pystr.join "/" t)%string
  end.

(** [p.name]: the last component, or the empty string. *)
Definition name (p : Path) : string := last (parts p) "".

(** [p.parent]: the path without its last component; a path without
    components is its own parent. *)
Definition parent (p : Path) : Path := mkPath (root p) (removelast (parts p)).

(** Where a file name splits into stem and suffix: the index [i] of its
    last dot when [0 < i < len(name) - 1]. *)
Definition suffix_index (nm : string) : option nat :=
  match pystr.rfind "." nm with
  | Some i =>
      if Nat.ltb 0 i && Nat.ltb i (String.length nm - 1) then Some i else None
  | None => None
  end.

Definition suffix_of_name (nm : string) : string :=
  match suffix_index nm with
  | Some i => substring i (String.length nm - i) nm
  | None => ""
  end.

Definition stem_of_name (nm : string) : string :=
  match suffix_index nm with
  | Some i => substring 0 i nm
  | None => nm
  end.

(** [p.suffix] and [p.stem]. *)
Definition suffix (p : Path) : string := suffix_of_name (name p).

Definition stem (p : Path) : string := stem_of_name (name p).

(** [p / q] for a path [q]: an anchored [q] replaces [p]. *)
Definition joinpath (p q : Path) : Path :=
  if String.eqb (root q) "" then mkPath (root p) (parts p ++ parts q) else q.

(** [p / nm] for a single file name [nm] (a string without separator,
    which is what [stem], [suffix] and [name] give): one more
    component. *)
Definition joinname (p : Path) (nm : string) : Path :=
  mkPath (root p) (parts p ++ [nm]).

(** [p.with_suffix(sfx)] for a suffix such as [".md"]; [None] stands for
    the [ValueError] pathlib raises on a path with an empty name. *)
Definition with_suffix (p : Path) (sfx : string) : option Path :=
  if String.eqb (name p) "" then None
  else Some (mkPath (root p) (removelast (parts p) ++ [(stem p ++ sfx)%string])).

(** [drop_prefix pre l]: what is left of [l] after the prefix [pre]. *)
Fixpoint drop_prefix (pre l : list string) : option (list string) :=
  match pre, l with
  | [], _ => Some l
  | x :: pre', y :: l' => if String.eqb x y then drop_prefix pre' l' else None
  | _ :: _, [] => None
  end.

(** [p.relative_to(base)]; [None] stands for the [ValueError] raised
    when [base] is neither [p] nor one of its parents.  The test is on
    the paths as written, not on the files they name. *)
Definition relative_to (p base : Path) : option Path :=
  if String.eqb (root p) (root base) then
    match drop_prefix (parts base) (parts p) with
    | Some rest => Some (mkPath "" rest)
    | None => None
    end
  else None.

End pathlib.

Import pathlib.

(** ** The file system

    What [Path.exists], [is_file], [is_dir], [rglob], [mkdir] and
    [write_text] see and change.  A directory lists its entries in the
    order the operating system enumerates them, each name once.  A
    link to a regular file or to a device is the node it resolves to
    (every check the converter makes follows links).  A link to a
    directory is [DirLink], with the entries of the directory it
    resolves to: it is a directory to every check, but [rglob] does not
    descend into one.  A link whose target is missing is [Dangling]; it
    is [creatable] when the directory of the target exists, so that
    opening the link for writing creates the target.  Pipes, sockets
    and devices are [Special].  A tree has one path to each node: what
    is made or written through a link is seen through that link.
    Permissions, full disks and [".."] are not modelled: a tree holds
    no entry named [".."], so a path through one names nothing. *)

Module fsys.

#[local] Set Warnings "-register-all".

Inductive Node : Type :=
| File (content : string)
| Dir (entries : list (string * Node))
| DirLink (entries : list (string * Node))
| Special
| Dangling (creatable : bool).

(** The entries of a directory, reached by its name or through a link. *)
Definition entries_of (n : Node) : option (list (string * Node)) :=
  match n with
  | Dir es | DirLink es => Some es
  | _ => None
  end.

(** The directory [n] with [es] for entries. *)
Definition with_entries (n : Node) (es : list (string * Node)) : Node :=
  match n with
  | DirLink _ => DirLink es
  | _ => Dir es
  end.

(** The entry called [nm] of a directory listing. *)
Fixpoint entry (nm : string) (es : list (string * Node)) : option Node :=
  match es with
  | [] => None
  | (k, v) :: es' => if String.eqb k nm then Some v else entry nm es'
  end.

(** Replace the entry called [nm]. *)
Fixpoint set_entry (nm : string) (v : Node) (es : list (string * Node))
  : list (string * Node) :=
  match es with
  | [] => []
  | (k, w) :: es' =>
      if String.eqb k nm then (k, v) :: es' else (k, w) :: set_entry nm v es'
  end.

(** The node reached from [n] along the components [ps]. *)
Fixpoint lookup (n : Node) (ps : list string) : option Node :=
  match ps with
  | [] => Some n
  | c :: rest =>
      match entries_of n with
      | Some es =>
          match entry c es with
          | Some child => lookup child rest
          | None => None
          end
      | None => None
      end
  end.

(** [mkdir(parents=True, exist_ok=True)] along [ps]: directories on the
    way are entered, linked ones too, missing ones are created, and
    anything else in the way is an [OSError] ([None]). *)
Fixpoint mkdirs (n : Node) (ps : list string) : option Node :=
  match ps with
  | [] => match entries_of n with Some _ => Some n | None => None end
  | c :: rest =>
      match entries_of n with
      | Some es =>
          match entry c es with
          | Some child =>
              match mkdirs child rest with
              | Some child' => Some (with_entries n (set_entry c child' es))
              | None => None
              end
          | None =>
              match mkdirs (Dir []) rest with
              | Some child' => Some (with_entries n (es ++ [(c, child')]))
              | None => None
              end
          end
      | None => None
      end
  end.

(** [open(path, 'w')] along [ps] and [text] written to the file: a
    regular file is replaced, a missing name in an existing directory
    is created, a dangling link whose target can be created becomes a
    link to the new file, a device takes the text and stays what it is;
    a directory, a dangling link whose target cannot be created or a
    missing parent is an [OSError] ([None]). *)
Fixpoint write (n : Node) (ps : list string) (text : string) : option Node :=
  match ps with
  | [] =>
      match n with
      | File _ | Dangling true => Some (File text)
      | Special => Some Special
      | Dir _ | DirLink _ | Dangling false => None
      end
  | c :: rest =>
      match entries_of n with
      | Some es =>
          match entry c es with
          | Some child =>
              match write child rest text with
              | Some child' => Some (with_entries n (set_entry c child' es))
              | None => None
              end
          | None =>
              match rest with
              | [] => Some (with_entries n (es ++ [(c, File text)]))
              | _ :: _ => None
              end
          end
      | None => None
      end
  end.

(** What [rglob('*')] yields below a node, as component lists relative
    to it: the entries of the directory itself, then, for each entry
    that is a directory and not a link, what the walk yields below it. *)
Fixpoint walk (n : Node) : list (list string) :=
  match n with
  | Dir es | DirLink es =>
      map (fun e => [fst e]) es ++
      flat_map (fun e => let '(nm, child) := e in
                  match child with
                  | Dir _ => map (cons nm) (walk child)
                  | _ => []
                  end) es
  | _ => []
  end.

(** The tree below ["/"] and the working directory (its components
    from the root), against which relative paths are resolved. *)
Record FS : Type := mkFS { tree : list (string * Node); cwd : list string }.

Definition abs_parts (fs : FS) (p : Path) : list string :=
  if String.eqb (root p) "" then cwd fs ++ parts p else parts p.

(** [os.stat] without the details: the node a path names, if any. *)
Definition stat (fs : FS) (p : Path) : option Node :=
  lookup (Dir (tree fs)) (abs_parts fs p).

(** [p.exists()]: false for a missing path and for a dangling link. *)
Definition exists_ (fs : FS) (p : Path) : bool :=
  match stat fs p with
  | Some (Dangling _) | None => false
  | Some _ => true
  end.

(** [os.path.lexists(p)]: there is an entry, whatever it is. *)
Definition lexists (fs : FS) (p : Path) : bool :=
  match stat fs p with Some _ => true | None => false end.

Definition is_file (fs : FS) (p : Path) : bool :=
  match stat fs p with Some (File _) => true | _ => false end.

Definition is_dir (fs : FS) (p : Path) : bool :=
  match stat fs p with Some (Dir _) | Some (DirLink _) => true | _ => false end.

(** [p.rglob('*')]: nothing unless [p] is a directory. *)
Definition rglob (fs : FS) (p : Path) : list Path :=
  match stat fs p with
  | Some n => map (fun rel => mkPath (root p) (parts p ++ rel)) (walk n)
  | None => []
  end.

(** [p.mkdir(parents=True, exist_ok=True)]. *)
Definition mkdir_parents (fs : FS) (p : Path) : option FS :=
  match mkdirs (Dir (tree fs)) (abs_parts fs p) with
  | Some (Dir es) => Some (mkFS es (cwd fs))
  | _ => None
  end.

(** [p.write_text(text)] for a text that can be encoded: the file is
    opened and holds [text]. *)
Definition write_text (fs : FS) (p : Path) (text : string) : option FS :=
  match write (Dir (tree fs)) (abs_parts fs p) text with
  | Some (Dir es) => Some (mkFS es (cwd fs))
  | _ => None
  end.

(** [open(p, 'w')] and nothing written: the file is created, or emptied
    if there is one. *)
Definition open_w (fs : FS) (p : Path) : option FS := write_text fs p "".

End fsys.

Import fsys.

(** ** What the program prints

    One record per line of standard output: the six-field status record
    of [emit_status], or the summary record that ends a run. *)

Record StatusRecord : Type := mkStatus {
  status : string;
  message : string;
  file : string;
  progress : nat;
  total : nat;
  error : string
}.

Record ConversionResult : Type := mkResult {
  input : string;
  output : string;
  success : bool
}.

Record BatchSummary : Type := mkSummary {
  summary_message : string;
  successful : nat;
  failed : nat;
  summary_total : nat;
  results : list ConversionResult
}.

Inductive Line : Type :=
| Progress (r : StatusRecord)
| Complete (s : BatchSummary).

(** ** The world and the monad of the program

    A computation runs on the file system and the lines printed so far.
    It returns a value, raises a Python exception, leaves through
    [sys.exit], or is cut off when the fuel of a [while True] loop runs
    out. *)

Inductive Exn : Type :=
| ValueError (msg : string)
| OSError (path : string)
| ConverterError (msg : string).

(** [str(e)]; the wording the operating system gives an [OSError] is not
    modelled, only the path it is about. *)
Definition str_exn (e : Exn) : string :=
  match e with
  | ValueError msg => msg
  | OSError p => p
  | ConverterError msg => msg
  end.

Inductive Outcome (A : Type) : Type :=
| Ok (a : A)
| Raise (e : Exn)
| Exit (code : nat)
| OutOfFuel.

Arguments Ok {A} a.
Arguments Raise {A} e.
Arguments Exit {A} code.
Arguments OutOfFuel {A}.

Record World : Type := mkWorld { fs : FS; stdout : list Line }.

Definition M (A : Type) : Type := World -> Outcome A * World.

Definition ret {A} (a : A) : M A := fun w => (Ok a, w).

Definition bind {A B} (m : M A) (k : A -> M B) : M B :=
  fun w =>
    match m w with
    | (Ok a, w') => k a w'
    | (Raise e, w') => (Raise e, w')
    | (Exit c, w') => (Exit c, w')
    | (OutOfFuel, w') => (OutOfFuel, w')
    end.

Declare Scope io_scope.
Delimit Scope io_scope with io.
Notation "x <- m ;; k" := (bind m (fun x => k))
  (at level 61, m at next level, right associativity) : io_scope.
Notation "m ;; k" := (bind m (fun _ => k))
  (at level 61, right associativity) : io_scope.
Local Open Scope io_scope.

Definition raise {A} (e : Exn) : M A := fun w => (Raise e, w).

(** [sys.exit(code)]: [SystemExit] is not an [Exception], so no handler
    of this program catches it. *)
Definition sys_exit {A} (code : nat) : M A := fun w => (Exit code, w).

Definition out_of_fuel {A} : M A := fun w => (OutOfFuel, w).

(** [try: body / except ValueError: handler]. *)
Definition try_except_ValueError {A} (body handler : M A) : M A :=
  fun w =>
    match body w with
    | (Raise (ValueError _), w') => handler w'
    | r => r
    end.

(** [try: body / except Exception as e: handler]. *)
Definition try_except_Exception {A} (body : M A) (handler : Exn -> M A) : M A :=
  fun w =>
    match body w with
    | (Raise e, w') => handler e w'
    | r => r
    end.

(** A pathlib call that raises [ValueError]. *)
Definition or_ValueError {A} (o : option A) (msg : string) : M A :=
  match o with Some a => ret a | None => raise (ValueError msg) end.

(** [print(json.dumps(data), flush=True)]. *)
Definition print (l : Line) : M unit :=
  fun w => (Ok tt, mkWorld (fs w) (stdout w ++ [l])).

Definition path_exists (p : Path) : M bool :=
  fun w => (Ok (exists_ (fs w) p), w).

Definition path_is_file (p : Path) : M bool :=
  fun w => (Ok (is_file (fs w) p), w).

Definition path_is_dir (p : Path) : M bool :=
  fun w => (Ok (is_dir (fs w) p), w).

Definition path_rglob (p : Path) : M (list Path) :=
  fun w => (Ok (rglob (fs w) p), w).

Definition path_mkdir (p : Path) : M unit :=
  fun w =>
    match mkdir_parents (fs w) p with
    | Some fs' => (Ok tt, mkWorld fs' (stdout w))
    | None => (Raise (OSError (str p)), w)
    end.

(** [p.write_text(text, encoding='utf-8')]: the file is opened, and so
    created or emptied, before the text is encoded; a text that cannot
    be encoded raises [UnicodeEncodeError], a [ValueError], and leaves
    the file empty. *)
Definition path_write_text (p : Path) (text : string) : M unit :=
  fun w =>
    match open_w (fs w) p with
    | Some opened =>
        if pystr.encodable text then
          match write_text (fs w) p text with
          | Some fs' => (Ok tt, mkWorld fs' (stdout w))
          | None => (Raise (OSError (str p)), w)
          end
        else (Raise (ValueError "surrogates not allowed"),
              mkWorld opened (stdout w))
    | None => (Raise (OSError (str p)), w)
    end.

(** ** converter.py *)

Definition SUPPORTED_EXTENSIONS : list string :=
  [".pdf"; ".docx"; ".pptx"; ".xlsx"; ".html"; ".htm";
   ".png"; ".jpg"; ".jpeg"; ".gif"; ".bmp"; ".tiff"; ".webp"].

(** [path.suffix.lower() in SUPPORTED_EXTENSIONS]. *)
Definition supported (p : Path) : bool :=
  existsb (String.eqb (pystr.lower (suffix p))) SUPPORTED_EXTENSIONS.

Definition emit_status (status message file : string) (progress total : nat)
    (error : string) : M unit :=
  print (Progress (mkStatus status message file progress total error)).

(** The file name tried at [counter]: [f"{base}_{counter}{ext}"]. *)
Definition numbered_name (base ext : string) (counter : nat) : string :=
  (base ++ "_" ++ pystr.of_nat counter ++ ext)%string.

(** The [while True] loop of [get_unique_output_path], from [counter]. *)
Fixpoint unique_loop (fuel : nat) (parent : Path) (base ext : string)
    (counter : nat) : M Path :=
  match fuel with
  | 0 => out_of_fuel
  | S fuel' =>
      let new_path := joinname parent (numbered_name base ext counter) in
      taken <- path_exists new_path;;
      if negb taken then ret new_path
      else unique_loop fuel' parent base ext (counter + 1)
  end.

Definition get_unique_output_path (fuel : nat) (output_path : Path) : M Path :=
  taken <- path_exists output_path;;
  if negb taken then ret output_path
  else
    let base := stem output_path in
    let ext := suffix output_path in
    let parent := parent output_path in
    unique_loop fuel parent base ext 1.

(** The inner loop of [collect_files] over what [rglob] yields. *)
Fixpoint collect_rglob (found files : list Path) : M (list Path) :=
  match found with
  | [] => ret files
  | file_path :: rest =>
      isf <- path_is_file file_path;;
      if isf && supported file_path
      then collect_rglob rest (files ++ [file_path])
      else collect_rglob rest files
  end.

(** The outer loop of [collect_files]; [files] is the list built so far. *)
Fixpoint collect_inputs (input_paths : list string) (files : list Path)
    : M (list Path) :=
  match input_paths with
  | [] => ret files
  | input_path :: rest =>
      let path := of_str input_path in
      isf <- path_is_file path;;
      if isf then
        if supported path then collect_inputs rest (files ++ [path])
        else
          emit_status "warning"
            ("Unsupported file format: " ++ suffix path) (str path) 0 0 "";;
          collect_inputs rest files
      else
        isd <- path_is_dir path;;
        if isd then
          found <- path_rglob path;;
          files' <- collect_rglob found files;;
          collect_inputs rest files'
        else
          emit_status "error"
            ("Path does not exist: " ++ input_path) input_path 0 0 "";;
          collect_inputs rest files
  end.

Definition collect_files (input_paths : list string) : M (list Path) :=
  collect_inputs input_paths [].

Definition get_output_path (fuel : nat) (input_file input_base output_dir : Path)
    : M Path :=
  output_path <-
    try_except_ValueError
      (relative <- or_ValueError (relative_to input_file input_base)
                     "is not in the subpath";;
       relative_md <- or_ValueError (with_suffix relative ".md")
                        "has an empty name";;
       ret (joinpath output_dir relative_md))
      (renamed <- or_ValueError (with_suffix input_file ".md")
                    "has an empty name";;
       ret (joinname output_dir (name renamed)));;
  path_mkdir (parent output_path);;
  get_unique_output_path fuel output_path.

(** What Docling makes of a document: Markdown text, or an exception with
    its message. *)
Inductive Conversion : Type :=
| Markdown (text : string)
| Fails (msg : string).

(** [successful], [failed] and [results], the three variables the loop
    of [main] updates. *)
Record Tally : Type := mkTally {
  tally_successful : nat;
  tally_failed : nat;
  tally_results : list ConversionResult
}.

Section Driver.

(** The Docling calls [converter.convert(str(input_file))] and
    [result.document.export_to_markdown()], on the file system as it is
    at the call. *)
Variable docling : FS -> string -> Conversion.

Definition docling_convert (path : string) : M string :=
  fun w =>
    match docling (fs w) path with
    | Markdown text => (Ok text, w)
    | Fails msg => (Raise (ConverterError msg), w)
    end.

Definition convert_file (input_file output_file : Path) : M bool :=
  try_except_Exception
    (markdown_content <- docling_convert (str input_file);;
     path_write_text output_file markdown_content;;
     ret true)
    (fun e =>
       emit_status "error" (str_exn e) (str input_file) 0 0 (str_exn e);;
       ret false).

(** One turn of the [for idx, input_file in enumerate(files, 1)] loop of
    [main], on the counters and the result list. *)
Definition loop_body (fuel : nat) (input_base output_dir : Path)
    (total idx : nat) (input_file : Path) (t : Tally) : M Tally :=
  emit_status "converting" ("Converting: " ++ name input_file)
    (str input_file) idx total "";;
  output_file <- get_output_path fuel input_file input_base output_dir;;
  ok <- convert_file input_file output_file;;
  if ok then
    let t' :=
      mkTally (tally_successful t + 1) (tally_failed t)
        (tally_results t
         ++ [mkResult (str input_file) (str output_file) true]) in
    emit_status "converted" ("Converted: " ++ name input_file)
      (str input_file) idx total "";;
    ret t'
  else
    ret (mkTally (tally_successful t) (tally_failed t + 1)
           (tally_results t ++ [mkResult (str input_file) "" false])).

(** The loop: the body on each file in turn, [idx] counting from its
    start value. *)
Fixpoint convert_each (fuel : nat) (input_base output_dir : Path)
    (total idx : nat) (files : list Path) (t : Tally) : M Tally :=
  match files with
  | [] => ret t
  | input_file :: rest =>
      t' <- loop_body fuel input_base output_dir total idx input_file t;;
      convert_each fuel input_base output_dir total (idx + 1) rest t'
  end.

(** The base path for the relative output structure; [fallback] is the
    value of the [else Path('.')] arm. *)
Definition input_base_with (fallback : Path) (inputs : list string)
    (files : list Path) : M Path :=
  single_dir <-
    match inputs with
    | [only] => path_is_dir (of_str only)
    | _ => ret false
    end;;
  if single_dir then ret (of_str (hd "" inputs))
  else ret (match files with f :: _ => parent f | [] => fallback end).

(** [main] from the collected files on: the empty-batch exit, the
    ["ready"] record, the base path, the loop and the summary. *)
Definition convert_batch (fallback : Path) (fuel : nat)
    (inputs : list string) (output_dir : Path) (files : list Path) : M unit :=
  match files with
  | [] =>
      emit_status "error" "No supported files found" "" 0 0
        "No supported files found";;
      sys_exit 1
  | _ :: _ => ret tt
  end;;
  let total := List.length files in
  emit_status "ready" ("Found " ++ pystr.of_nat total ++ " file(s) to convert")
    "" 0 total "";;
  input_base <- input_base_with fallback inputs files;;
  t <- convert_each fuel input_base output_dir total 1 files (mkTally 0 0 []);;
  print (Complete
           (mkSummary
              ("Conversion complete: " ++ pystr.of_nat (tally_successful t)
               ++ " succeeded, " ++ pystr.of_nat (tally_failed t) ++ " failed")
              (tally_successful t) (tally_failed t) total (tally_results t))).

Definition main_with (fallback : Path) (fuel : nat) (inputs : list string)
    (output : string) : M unit :=
  let output_dir := of_str output in
  path_mkdir output_dir;;
  emit_status "starting" "Collecting files..." "" 0 0 "";;
  files <- collect_files inputs;;
  convert_batch fallback fuel inputs output_dir files.

(** [main()], after [argparse] has given [args.input] and [args.output]. *)
Definition main (fuel : nat) (inputs : list string) (output : string) : M unit :=
  main_with (of_str ".") fuel inputs output.

End Driver.

(** ** The vocabulary of the statements *)

(** The listing of the directory a path names; empty when it names none. *)
Definition listing (f : FS) (p : Path) : list (string * Node) :=
  match stat f p with
  | Some (Dir es) | Some (DirLink es) => es
  | _ => []
  end.

(** The candidate with [_k] put between stem and suffix. *)
Definition with_counter (p : Path) (k : nat) : Path :=
  joinname (parent p) (numbered_name (stem p) (suffix p) k).

(** The path [get_output_path] computes before it looks at the file
    system: below [output_dir], the file's path from [input_base] on, or
    its name alone, with [.md] for suffix; [None] when both arms raise
    [ValueError]. *)
Definition candidate_path (input_file input_base output_dir : Path) : option Path :=
  let by_name :=
    match with_suffix input_file ".md" with
    | Some renamed => Some (joinname output_dir (name renamed))
    | None => None
    end in
  match relative_to input_file input_base with
  | Some relative =>
      match with_suffix relative ".md" with
      | Some relative_md => Some (joinpath output_dir relative_md)
      | None => by_name
      end
  | None => by_name
  end.

(** [input_file] lies below [input_base], as pathlib compares paths:
    same root, and the components of the base, then directories [sub],
    then a file name [nm]. *)
Definition descends (input_file input_base : Path) (sub : list string)
    (nm : string) : Prop :=
  root input_file = root input_base /\
  parts input_file = parts input_base ++ sub ++ [nm].

Definition unsupported_warning (input_path : string) : Line :=
  let path := of_str input_path in
  Progress (mkStatus "warning" ("Unsupported file format: " ++ suffix path)
              (str path) 0 0 "").

Definition missing_path_error (input_path : string) : Line :=
  Progress (mkStatus "error" ("Path does not exist: " ++ input_path)
              input_path 0 0 "").

(** What one input contributes, in the words of the specification: a
    named regular file if its extension is supported; for a directory,
    the supported regular files among what the recursive enumeration
    yields; nothing otherwise. *)
Definition discovered_from (f : FS) (input_path : string) : list Path :=
  let path := of_str input_path in
  if is_file f path then
    if supported path then [path] else []
  else if is_dir f path then
    filter (fun q => is_file f q && supported q) (rglob f path)
  else [].

(** What one input makes discovery report: a warning for a named file
    of an unsupported format, an error for a path that is neither file
    nor directory, nothing for a directory whatever it holds. *)
Definition reported_for (f : FS) (input_path : string) : list Line :=
  let path := of_str input_path in
  if is_file f path then
    if supported path then [] else [unsupported_warning input_path]
  else if is_dir f path then []
  else [missing_path_error input_path].

(** The world after one more line on standard output. *)
Definition say (w : World) (l : Line) : World :=
  mkWorld (fs w) (stdout w ++ [l]).

Definition is_progress (l : Line) : bool :=
  match l with Progress _ => true | Complete _ => false end.

Definition converting_line (idx total : nat) (f : Path) : Line :=
  Progress (mkStatus "converting" ("Converting: " ++ name f) (str f) idx total "").

Definition converted_line (idx total : nat) (f : Path) : Line :=
  Progress (mkStatus "converted" ("Converted: " ++ name f) (str f) idx total "").

Definition conversion_error_line (f : Path) (msg : string) : Line :=
  Progress (mkStatus "error" msg (str f) 0 0 msg).

Definition starting_line : Line :=
  Progress (mkStatus "starting" "Collecting files..." "" 0 0 "").

Definition ready_line (total : nat) : Line :=
  Progress (mkStatus "ready"
              ("Found " ++ pystr.of_nat total ++ " file(s) to convert")
              "" 0 total "").

Definition fatal_line : Line :=
  Progress (mkStatus "error" "No supported files found" "" 0 0
              "No supported files found").

Definition summary_of (total : nat) (t : Tally) : BatchSummary :=
  mkSummary
    ("Conversion complete: " ++ pystr.of_nat (tally_successful t)
     ++ " succeeded, " ++ pystr.of_nat (tally_failed t) ++ " failed")
    (tally_successful t) (tally_failed t) total (tally_results t).

(** [w'] is [w] with progress records printed after it, and no summary. *)
Definition progress_since (w w' : World) : Prop :=
  exists new, stdout w' = stdout w ++ new /\ forallb is_progress new = true.

(** The base path chosen once the files are known. *)
Definition chosen_base (f : FS) (inputs : list string) (first : Path) : Path :=
  match inputs with
  | [only] => if is_dir f (of_str only) then of_str only else parent first
  | _ => parent first
  end.

(** *** Worlds and converters for the examples *)

(** [/docs/x/y.pdf] and an empty [/out]. *)
Definition docs_fs : FS :=
  mkFS [("docs", Dir [("x", Dir [("y.pdf", File "%PDF")])]); ("out", Dir [])] [].

(** The directory of the specification's discovery example. *)
Definition mixed_fs : FS :=
  mkFS [("docs", Dir [("a.pdf", File "%PDF");
                      ("sub", Dir [("b.docx", File "PK")]);
                      ("c.txt", File "text")])] [].

(** Three documents and an empty [/out]. *)
Definition trio_fs : FS :=
  mkFS [("docs", Dir [("a.pdf", File "%PDF"); ("b.pdf", File "oops");
                      ("c.pdf", File "%PDF")]);
        ("out", Dir [])] [].

(** An output directory where [a.md] and [a_1.md] are taken ([a_1.md] by
    a directory), [a_3.md] too, and [b.md] is a dangling link whose target
    cannot be created. *)
Definition taken_fs : FS :=
  mkFS [("docs", Dir [("b.pdf", File "%PDF")]);
        ("out", Dir [("a.md", File "old"); ("a_1.md", Dir []);
                     ("a_3.md", File "older"); ("b.md", Dangling false)])] [].

(** A pipe and a dangling link. *)
Definition pipes_fs : FS :=
  mkFS [("run", Dir [("fifo.pdf", Special); ("gone.pdf", Dangling false)])] [].

(** A file in the place of an output directory: [/out/x] is a regular
    file, and [/docs/x/y.pdf] is to go to [/out/x/y.md]. *)
Definition blocked_fs : FS :=
  mkFS [("docs", Dir [("x", Dir [("y.pdf", File "%PDF")])]);
        ("out", Dir [("x", File "notes")])] [].


(** A linked directory and a linked file below [/docs]: [link] leads to
    a directory that holds [b.pdf], [c.pdf] is a link to a regular
    file. *)
Definition linked_fs : FS :=
  mkFS [("docs", Dir [("a.pdf", File "%PDF");
                      ("link", DirLink [("b.pdf", File "%PDF")]);
                      ("c.pdf", File "%PDF");
                      ("real", Dir [("d.pdf", File "%PDF")])])] [].

(** The code point [U+D800], a lone surrogate. *)
Definition lone_surrogate : string :=
  String "237"%char (String "160"%char (String "128"%char EmptyString)).


(** A converter that always succeeds. *)
Definition echo_converter (f : FS) (path : string) : Conversion :=
  Markdown ("# " ++ path).

(** A converter that fails on [/docs/b.pdf] alone. *)
Definition picky_converter (f : FS) (path : string) : Conversion :=
  if String.eqb path "/docs/b.pdf" then Fails "not a PDF"
  else Markdown ("# " ++ path).

(** *** Extensions whatever their case *)





(** *** What a run leaves in place, and what it prints *)

(** Two nodes of the same kind; two regular files, of the same content. *)
Definition same_kind (x y : Node) : Prop :=
  match x, y with
  | File c, File d => c = d
  | Dir _, Dir _ => True
  | DirLink _, DirLink _ => True
  | Special, Special => True
  | Dangling b, Dangling b' => b = b'
  | _, _ => False
  end.

(** Everything reached in [n] is reached in [n'], and is of the same
    kind there. *)
Definition node_kept (n n' : Node) : Prop :=
  forall ps x, lookup n ps = Some x ->
    exists x', lookup n' ps = Some x' /\ same_kind x x'.

(** [f'] holds all that [f] holds: every path that names something in
    [f] names something of the same kind in [f'], a regular file with
    the content it had. *)
Definition kept (f f' : FS) : Prop :=
  cwd f' = cwd f /\ node_kept (Dir (tree f)) (Dir (tree f')).

(** [y] is still what [x] was: of the same kind, and with the same
    content if [x] is a regular file.  Where [x] was a link to nothing,
    [y] is any node: the link is still there, and what it points to may
    have been made since. *)
Definition still (x y : Node) : Prop :=
  match x with
  | Dangling _ => True
  | _ => same_kind x y
  end.

Definition node_survives (n n' : Node) : Prop :=
  forall ps x, lookup n ps = Some x ->
    exists x', lookup n' ps = Some x' /\ still x x'.

(** Nothing of [f] is removed or overwritten in [f']: every path that
    names something in [f] names something in [f'], a regular file
    with the content it had, a directory, a linked directory or a
    device as such. *)
Definition survives (f f' : FS) : Prop :=
  cwd f' = cwd f /\ node_survives (Dir (tree f)) (Dir (tree f')).

(** No string twice in the list. *)
Fixpoint distinct (l : list string) : bool :=
  match l with
  | [] => true
  | x :: l' => negb (existsb (String.eqb x) l') && distinct l'
  end.

(** Each directory at and below [n] lists each name once, as a file
    system does. *)
Fixpoint unique_names (n : Node) : bool :=
  match n with
  | Dir es | DirLink es =>
      distinct (map fst es)
      && forallb (fun e => let '(_, child) := e in unique_names child) es
  | _ => true
  end.

(** Every directory on the way from [n] along [rel], the start and the
    end apart, is a directory itself and not a link to one. *)
Definition through_directories (n : Node) (rel : list string) : Prop :=
  forall pre post, rel = pre ++ post -> pre <> [] -> post <> [] ->
    exists es, lookup n pre = Some (Dir es).

(** The lines the loop of [main] prints for the files from index [idx]
    on, against the results it records: for each file its
    ["converting"] record, then its ["converted"] record and a result
    marked successful, or an ["error"] record and the result
    [{input, "", false}]. *)
Inductive turns (total : nat)
  : nat -> list Path -> list ConversionResult -> list Line -> Prop :=
| turns_done (idx : nat) : turns total idx [] [] []
| turns_converted (idx : nat) (f o : Path) (files : list Path)
    (rs : list ConversionResult) (lines : list Line) :
    turns total (idx + 1) files rs lines ->
    turns total idx (f :: files) (mkResult (str f) (str o) true :: rs)
      (converting_line idx total f :: converted_line idx total f :: lines)
| turns_failed (idx : nat) (f : Path) (msg : string) (files : list Path)
    (rs : list ConversionResult) (lines : list Line) :
    turns total (idx + 1) files rs lines ->
    turns total idx (f :: files) (mkResult (str f) "" false :: rs)
      (converting_line idx total f :: conversion_error_line f msg :: lines).

(** Each result marked successful names a regular file of [f'] that was
    not there in [f]. *)
Definition outputs_written (f f' : FS) (rs : list ConversionResult) : Prop :=
  Forall (fun r => success r = true ->
            exists o text, output r = str o /\
                           stat f' o = Some (File text) /\
                           exists_ f o = false) rs.

(** An output directory where [a.md] is taken, for a second run. *)
Definition rerun_fs : FS :=
  mkFS [("docs", Dir [("a.pdf", File "%PDF")]);
        ("out", Dir [("a.md", File "old")])] [].

(** An output directory where [a.md] is a link to nothing in a
    directory that exists. *)
Definition link_out_fs : FS :=
  mkFS [("docs", Dir [("a.pdf", File "%PDF")]);
        ("out", Dir [("a.md", Dangling true); ("keep.md", File "kept")])] [].

(** A status record whose [progress] does not exceed its [total]. *)
Definition within_total (l : Line) : bool :=
  match l with
  | Progress r => Nat.leb (progress r) (total r)
  | Complete _ => true
  end.

(** The [progress] and [total] of the records of status [s] among
    [lines], in the order of the lines. *)
Definition counts_of (s : string) (lines : list Line) : list (nat * nat) :=
  flat_map (fun l =>
              match l with
              | Progress r =>
                  if String.eqb (status r) s then [(progress r, total r)]
                  else []
              | Complete _ => []
              end) lines.

(** The turns [idx], [idx + 1], ... of [n] that the results [rs] mark
    successful. *)
Definition successful_turns (n idx : nat) (rs : list ConversionResult)
    : list (nat * nat) :=
  flat_map (fun ir => if success (snd ir) then [(fst ir, n)] else [])
    (combine (seq idx (List.length rs)) rs).

(** ** converter.py, the window

    The handlers of [DoclingConverterApp] on the widgets they read and
    set.  What the user answers in a file dialog and what
    [os.path.exists] finds on the disk are arguments of the handler;
    the message boxes, the dialogs and the thread a handler starts are
    listed in the order of the calls.  [do_conversion] runs in that
    thread and hands its result to [conversion_complete] through
    [root.after]; it is not part of this model. *)

Module ospath.

(** [os.path] is [posixpath] here: the separator is the slash.

    [os.path.basename(p)]: what follows the last slash. *)
Definition basename (p : string) : string :=
  match pystr.rfind "/" p with
  | Some i => substring (i + 1) (String.length p - (i + 1)) p
  | None => p
  end.

(** Some character of [s] is not a dot. *)
Fixpoint has_non_dot (s : string) : bool :=
  match s with
  | EmptyString => false
  | String c s' => negb (Ascii.eqb c ".") || has_non_dot s'
  end.

(** [os.path.splitext(p)]: split at the last dot, when it comes after
    the last slash and after some character of the file name that is
    not a dot. *)
Definition splitext (p : string) : string * string :=
  match pystr.rfind "." p with
  | Some dot =>
      let start :=
        match pystr.rfind "/" p with Some sep => sep + 1 | None => 0 end in
      if Nat.leb start dot && has_non_dot (substring start (dot - start) p)
      then (substring 0 dot p, substring dot (String.length p - dot) p)
      else (p, "")
  | None => (p, "")
  end.

End ospath.

Module window.

Inductive ButtonState : Type := normal | disabled.

(** [file_path] and [status_var] are the two [StringVar]s, [convert_btn]
    the state of the Convert button, [progress_running] whether the
    progress bar has been started and not stopped. *)
Record App : Type := mkApp {
  file_path : string;
  status_var : string;
  convert_btn : ButtonState;
  progress_running : bool
}.

Inductive Call : Type :=
| askopenfilename
| asksaveasfilename (initialfile : string)
| showwarning (title text : string)
| showerror (title text : string)
| showinfo (title text : string)
| thread_start (input_path output_path : string).

(** The window as [__init__] builds it. *)
Definition initial : App :=
  mkApp "" "Select a file to convert" normal false.

(** The file name the save dialog proposes. *)
Definition initialfile (input_path : string) : string :=
  (fst (ospath.splitext (ospath.basename input_path)) ++ ".md")%string.

(** [browse_file]; [filename] is what the open dialog returns, the empty
    string when the user cancels. *)
Definition browse_file (filename : string) (app : App) : App * list Call :=
  if String.eqb filename "" then (app, [askopenfilename])
  else (mkApp filename "Ready to convert" (convert_btn app)
          (progress_running app),
        [askopenfilename]).

(** [convert_file]; [path_exists] is [os.path.exists] at the time of the
    call and [output_path] what the save dialog returns when it is
    asked, the empty string when the user cancels. *)
Definition convert_file (path_exists : string -> bool) (output_path : string)
    (app : App) : App * list Call :=
  let input_path := file_path app in
  if String.eqb input_path "" then
    (app, [showwarning "No file selected" "Please select a file first."])
  else if negb (path_exists input_path) then
    (app, [showerror "File not found" "The selected file does not exist."])
  else if String.eqb output_path "" then
    (app, [asksaveasfilename (initialfile input_path)])
  else
    (mkApp (file_path app) "Converting... Please wait" disabled true,
     [asksaveasfilename (initialfile input_path);
      thread_start input_path output_path]).

Definition newline : string := String "010"%char EmptyString.

(** [conversion_complete(success, message)]. *)
Definition conversion_complete (success : bool) (message : string) (app : App)
    : App * list Call :=
  if success then
    (mkApp (file_path app) "Conversion complete!" normal false,
     [showinfo "Success"
        ("File converted successfully!" ++ newline ++ newline
         ++ "Saved to:" ++ newline ++ message)])
  else
    (mkApp (file_path app) "Conversion failed" normal false,
     [showerror "Error" ("Conversion failed:" ++ newline ++ message)]).

(** A handler call with what the outside gives it.  [Edit] is the user
    typing in the entry that [__init__] binds to [file_path]. *)
Inductive Event : Type :=
| Edit (text : string)
| Browse (filename : string)
| Convert (path_exists : string -> bool) (output_path : string)
| Complete (success : bool) (message : string).

Definition handle (e : Event) (app : App) : App * list Call :=
  match e with
  | Edit text =>
      (mkApp text (status_var app) (convert_btn app) (progress_running app), [])
  | Browse filename => browse_file filename app
  | Convert path_exists output_path => convert_file path_exists output_path app
  | Complete success message => conversion_complete success message app
  end.

(** Handler calls one after the other, and all they call. *)
Fixpoint run (events : list Event) (app : App) : App * list Call :=
  match events with
  | [] => (app, [])
  | e :: rest =>
      let (app1, calls1) := handle e app in
      let (app2, calls2) := run rest app1 in
      (app2, calls1 ++ calls2)
  end.

End window.

(** * Properties *)

(** ** Strings, names and decimal numerals *)

Lemma append_length (a b : string) :
  String.length (a ++ b) = String.length a + String.length b.
Proof.
  induction a as [|c a IH]; simpl; [reflexivity | now rewrite IH].
Qed.

Lemma append_inv_head (s a b : string) : (s ++ a = s ++ b)%string -> a = b.
Proof.
  induction s as [|c s IH]; simpl; intros H; [exact H|].
  injection H as H. now apply IH.
Qed.

Lemma append_inv_tail (s a b : string) : (a ++ s = b ++ s)%string -> a = b.
Proof.
  revert b. induction a as [|c a IH]; intros [|d b] H; simpl in H.
  - reflexivity.
  - apply (f_equal String.length) in H. simpl in H.
    rewrite append_length in H. lia.
  - apply (f_equal String.length) in H. simpl in H.
    rewrite append_length in H. lia.
  - injection H as Hc H. subst d. f_equal. now apply IH.
Qed.

Lemma of_nat_inj (j k : nat) : pystr.of_nat j = pystr.of_nat k -> j = k.
Proof.
  unfold pystr.of_nat. intros H.
  apply Unsigned.to_uint_inj.
  apply (f_equal NilEmpty.uint_of_string) in H.
  rewrite !NilEmpty.usu in H. now injection H.
Qed.

(** Different counters give different names. *)
Lemma numbered_name_inj (base ext : string) (j k : nat) :
  numbered_name base ext j = numbered_name base ext k -> j = k.
Proof.
  unfold numbered_name. intros H.
  apply append_inv_head in H. apply (append_inv_head "_") in H.
  apply append_inv_tail in H. now apply of_nat_inj.
Qed.

Lemma substring_all (s : string) : substring 0 (String.length s) s = s.
Proof. induction s as [|c s IH]; simpl; [reflexivity | now rewrite IH]. Qed.

Lemma substring_split (s : string) :
  forall i, i <= String.length s ->
    (substring 0 i s ++ substring i (String.length s - i) s)%string = s.
Proof.
  induction s as [|c s IH]; intros [|i] Hi; simpl in *; try lia.
  - reflexivity.
  - now rewrite substring_all.
  - f_equal. apply IH. lia.
Qed.

(** A name is its stem followed by its suffix: numbering a name puts the
    counter before the extension, and [with_suffix] replaces the
    extension. *)
Lemma stem_suffix_name (nm : string) :
  (stem_of_name nm ++ suffix_of_name nm)%string = nm.
Proof.
  unfold stem_of_name, suffix_of_name, suffix_index.
  destruct (pystr.rfind "." nm) as [i|].
  - destruct (Nat.ltb 0 i && Nat.ltb i (String.length nm - 1)) eqn:E.
    + apply andb_true_iff in E as [_ E]. apply Nat.ltb_lt in E.
      apply substring_split. lia.
    + clear E. induction nm as [|c nm IH]; simpl; [reflexivity | now f_equal].
  - clear. induction nm as [|c nm IH]; simpl; [reflexivity | now f_equal].
Qed.

(** A file with a supported extension has a name. *)
Lemma supported_name (p : Path) : supported p = true -> name p <> "".
Proof.
  unfold supported, suffix. intros H E. rewrite E in H. discriminate.
Qed.

Lemma drop_prefix_app (pre rest : list string) :
  drop_prefix pre (pre ++ rest) = Some rest.
Proof.
  induction pre as [|x pre IH]; simpl; [reflexivity|].
  now rewrite String.eqb_refl.
Qed.

Lemma drop_prefix_Some (pre l rest : list string) :
  drop_prefix pre l = Some rest -> l = pre ++ rest.
Proof.
  revert l. induction pre as [|x pre IH]; intros [|y l] H; simpl in H;
    try discriminate; try (injection H as <-; reflexivity).
  destruct (String.eqb_spec x y); [|discriminate].
  subst y. simpl. f_equal. now apply IH.
Qed.

Lemma Path_eta (p : Path) : mkPath (root p) (parts p) = p.
Proof. now destruct p. Qed.

Lemma parent_joinname (p : Path) (nm : string) : parent (joinname p nm) = p.
Proof.
  unfold parent, joinname. simpl. rewrite removelast_last. apply Path_eta.
Qed.

(** ** Looking up one component more *)

Lemma lookup_app (n : Node) (ps qs : list string) :
  lookup n (ps ++ qs) =
  match lookup n ps with Some m => lookup m qs | None => None end.
Proof.
  revert n. induction ps as [|c ps IH]; intros n; simpl.
  - reflexivity.
  - destruct (entries_of n) as [es|]; [|reflexivity].
    destruct (entry c es); [apply IH | reflexivity].
Qed.

Lemma abs_parts_joinname (f : FS) (p : Path) (nm : string) :
  abs_parts f (joinname p nm) = abs_parts f p ++ [nm].
Proof.
  unfold abs_parts, joinname. simpl.
  destruct (String.eqb (root p) ""); [now rewrite app_assoc | reflexivity].
Qed.

Lemma stat_joinname (f : FS) (p : Path) (nm : string) :
  stat f (joinname p nm) = entry nm (listing f p).
Proof.
  unfold stat, listing. rewrite abs_parts_joinname, lookup_app.
  unfold stat. destruct (lookup (Dir (tree f)) (abs_parts f p)) as [[]|];
    simpl; try reflexivity;
    now destruct (entry nm entries).
Qed.

Lemma entry_In (nm : string) (es : list (string * Node)) (n : Node) :
  entry nm es = Some n -> In nm (map fst es).
Proof.
  induction es as [|[k v] es IH]; simpl; [discriminate|].
  destruct (String.eqb_spec k nm); [now left | intros H; right; auto].
Qed.

Lemma entry_In_pair (nm : string) (es : list (string * Node)) (n : Node) :
  entry nm es = Some n -> In (nm, n) es.
Proof.
  induction es as [|[k v] es IH]; simpl; [discriminate|].
  destruct (String.eqb_spec k nm) as [->|]; intros H.
  - injection H as <-. now left.
  - right. auto.
Qed.

Lemma exists_joinname_In (f : FS) (p : Path) (nm : string) :
  exists_ f (joinname p nm) = true -> In nm (map fst (listing f p)).
Proof.
  unfold exists_. rewrite stat_joinname.
  destruct (entry nm (listing f p)) eqn:E; [|discriminate].
  intros _. eapply entry_In; eauto.
Qed.

(** ** The collision loop *)

(** From a counter that is free, the first free one at or after [c]. *)
Lemma least_free (taken : nat -> bool) (k : nat) :
  forall c,
    taken (c + k) = false ->
    exists m, m <= k /\ taken (c + m) = false /\
              forall j, j < m -> taken (c + j) = true.
Proof.
  induction k as [|k IH]; intros c Hk.
  - exists 0. repeat split; [lia | exact Hk | intros j Hj; lia].
  - destruct (taken c) eqn:Hc.
    + destruct (IH (S c)) as [m [Hm [Hfree Hbelow]]].
      { now replace (S c + k) with (c + S k) by lia. }
      exists (S m). repeat split; [lia | |].
      * now replace (c + S m) with (S c + m) by lia.
      * intros [|j] Hj; [now rewrite Nat.add_0_r|].
        replace (c + S j) with (S c + j) by lia. apply Hbelow. lia.
    + exists 0. repeat split; [lia | | intros j Hj; lia].
      now rewrite Nat.add_0_r.
Qed.

Section Collision.

Variables (w : World) (parent : Path) (base ext : string).

(** Among the first [n + 1] numbered names, for a directory of [n]
    entries, one is not taken: the names differ, and the directory has
    room for [n] of them only. *)
Lemma some_candidate_free :
  exists k,
    k <= List.length (listing (fs w) parent) /\
    exists_ (fs w) (joinname parent (numbered_name base ext (1 + k))) = false.
Proof.
  set (taken := fun k =>
         exists_ (fs w) (joinname parent (numbered_name base ext (1 + k)))).
  set (es := listing (fs w) parent).
  set (ks := seq 0 (S (List.length es))).
  destruct (Forall_Exists_dec (fun k => taken k = true)
              (fun k => bool_dec (taken k) true) ks) as [All|Ex].
  - exfalso.
    assert (ND : NoDup (map (fun k => numbered_name base ext (1 + k)) ks)).
    { apply Injective_map_NoDup; [|apply seq_NoDup].
      intros a b H. apply numbered_name_inj in H. lia. }
    assert (Inc : incl (map (fun k => numbered_name base ext (1 + k)) ks)
                    (map fst es)).
    { intros nm Hin. apply in_map_iff in Hin as [k [<- Hk]].
      rewrite Forall_forall in All. apply exists_joinname_In, (All k Hk). }
    apply NoDup_incl_length in Inc; [|exact ND].
    unfold ks in Inc. rewrite !length_map, length_seq in Inc. lia.
  - apply Exists_exists in Ex as [k [Hk Hfree]].
    exists k. apply in_seq in Hk. split; [lia|].
    fold (taken k). now destruct (taken k).
Qed.

(** The first free counter, at most one more than the number of entries
    of the directory. *)
Lemma first_free_counter :
  exists k,
    1 <= k <= S (List.length (listing (fs w) parent)) /\
    exists_ (fs w) (joinname parent (numbered_name base ext k)) = false /\
    forall j, 1 <= j < k ->
      exists_ (fs w) (joinname parent (numbered_name base ext j)) = true.
Proof.
  destruct some_candidate_free as [n [Hn Hfree]].
  destruct (least_free
              (fun k => exists_ (fs w)
                          (joinname parent (numbered_name base ext k)))
              n 1 Hfree) as [m [Hm [Hf Hb]]].
  exists (1 + m). repeat split; [lia | lia | exact Hf |].
  intros j Hj. replace j with (1 + (j - 1)) by lia. apply Hb. lia.
Qed.

(** With more fuel than names taken in a row, the loop returns the
    first free candidate and leaves the world as it was. *)
Lemma unique_loop_finds (m : nat) :
  forall fuel c,
    (forall j, j < m ->
       exists_ (fs w) (joinname parent (numbered_name base ext (c + j))) = true) ->
    exists_ (fs w) (joinname parent (numbered_name base ext (c + m))) = false ->
    m < fuel ->
    unique_loop fuel parent base ext c w =
    (Ok (joinname parent (numbered_name base ext (c + m))), w).
Proof.
  induction m as [|m IH]; intros [|fuel] c Hbelow Hfree Hfuel; try lia.
  - rewrite Nat.add_0_r in *.
    simpl. unfold bind, path_exists. rewrite Hfree. reflexivity.
  - pose proof (Hbelow 0 ltac:(lia)) as H0. rewrite Nat.add_0_r in H0.
    simpl. unfold bind, path_exists. rewrite H0. simpl.
    replace (c + S m) with (c + 1 + m) by lia.
    apply IH; [|now replace (c + 1 + m) with (c + S m) by lia | lia].
    intros j Hj. replace (c + 1 + j) with (c + S j) by lia.
    apply Hbelow. lia.
Qed.

(** With no more fuel than names taken in a row, it is cut off. *)
Lemma unique_loop_starved :
  forall fuel c,
    (forall j, j < fuel ->
       exists_ (fs w) (joinname parent (numbered_name base ext (c + j))) = true) ->
    unique_loop fuel parent base ext c w = (OutOfFuel, w).
Proof.
  induction fuel as [|fuel IH]; intros c Hall; [reflexivity|].
  pose proof (Hall 0 ltac:(lia)) as H0. rewrite Nat.add_0_r in H0.
  simpl. unfold bind, path_exists. rewrite H0. simpl.
  apply IH. intros j Hj. replace (c + 1 + j) with (c + S j) by lia.
  apply Hall. lia.
Qed.

End Collision.

(** C8. The [while True] loop of [get_unique_output_path] terminates on
    every file system of the model, where a directory has finitely many
    entries: the counter reaches a [k] whose numbered path does not
    exist, and from [k] units of fuel on the loop returns that path. *)
Theorem unique_loop_terminates (w : World) (parent : Path) (base ext : string) :
  exists k,
    1 <= k /\
    exists_ (fs w) (joinname parent (numbered_name base ext k)) = false /\
    forall fuel, k <= fuel ->
      unique_loop fuel parent base ext 1 w =
      (Ok (joinname parent (numbered_name base ext k)), w).
Proof.
  destruct (first_free_counter w parent base ext) as [k [Hk [Hfree Hbelow]]].
  exists k. repeat split; [lia | exact Hfree |].
  intros fuel Hfuel.
  replace k with (1 + (k - 1)) by lia.
  apply unique_loop_finds; [| now replace (1 + (k - 1)) with k by lia | lia].
  intros j Hj. apply Hbelow. lia.
Qed.

(** Whatever the fuel, resolving a collision changes nothing. *)
Lemma get_unique_output_path_world (fuel : nat) (p : Path) (w : World) :
  snd (get_unique_output_path fuel p w) = w.
Proof.
  unfold get_unique_output_path, bind, path_exists.
  destruct (exists_ (fs w) p); simpl; [|reflexivity].
  generalize 1 as c. induction fuel as [|fuel IH]; intros c; [reflexivity|].
  simpl. unfold bind, path_exists.
  destruct (exists_ (fs w) _); simpl; [apply IH | reflexivity].
Qed.


(** The example of the specification, and a little more: with [a.md] and
    [a_1.md] taken, [/out/a.md] resolves to [/out/a_2.md], although
    [a_3.md] is taken too; a free name is returned as it is. *)
Example dedup_example :
  get_unique_output_path 3 (of_str "/out/a.md") (mkWorld taken_fs []) =
    (Ok (of_str "/out/a_2.md"), mkWorld taken_fs []) /\
  get_unique_output_path 0 (of_str "/out/c.md") (mkWorld taken_fs []) =
    (Ok (of_str "/out/c.md"), mkWorld taken_fs []).
Proof. split; reflexivity. Qed.

(** ** Creating directories *)

Lemma entry_set_entry (c : string) (v x : Node) (es : list (string * Node)) :
  entry c es = Some x -> entry c (set_entry c v es) = Some v.
Proof.
  induction es as [|[k u] es IH]; simpl; [discriminate|].
  destruct (String.eqb k c) eqn:E; simpl; rewrite E; auto.
Qed.

Lemma set_entry_twice (c : string) (v v' : Node) (es : list (string * Node)) :
  set_entry c v (set_entry c v' es) = set_entry c v es.
Proof.
  induction es as [|[k u] es IH]; simpl; [reflexivity|].
  destruct (String.eqb k c) eqn:E; simpl; rewrite E; [reflexivity|].
  now rewrite IH.
Qed.

Lemma entry_app_new (c : string) (v : Node) (es : list (string * Node)) :
  entry c es = None -> entry c (es ++ [(c, v)]) = Some v.
Proof.
  induction es as [|[k u] es IH]; simpl.
  - now rewrite String.eqb_refl.
  - destruct (String.eqb k c); [discriminate | exact IH].
Qed.

Lemma set_entry_app_new (c : string) (v v' : Node) (es : list (string * Node)) :
  entry c es = None -> set_entry c v (es ++ [(c, v')]) = es ++ [(c, v)].
Proof.
  induction es as [|[k u] es IH]; simpl.
  - now rewrite String.eqb_refl.
  - destruct (String.eqb k c); [discriminate|].
    intros H. now rewrite IH.
Qed.

Lemma entries_of_with_entries (n : Node) (es : list (string * Node)) :
  entries_of (with_entries n es) = Some es.
Proof. now destruct n. Qed.

Lemma with_entries_twice (n : Node) (es es' : list (string * Node)) :
  with_entries (with_entries n es) es' = with_entries n es'.
Proof. now destruct n. Qed.

(** Creating the directories of a path a second time changes nothing. *)
Lemma mkdirs_idempotent (ps : list string) :
  forall n n', mkdirs n ps = Some n' -> mkdirs n' ps = Some n'.
Proof.
  induction ps as [|c rest IH]; intros n n' H; simpl in H;
    destruct (entries_of n) as [es|] eqn:En; try discriminate.
  - injection H as <-. simpl. now rewrite En.
  - destruct (entry c es) as [child|] eqn:E.
    + destruct (mkdirs child rest) as [child'|] eqn:Hc; [|discriminate].
      injection H as <-. simpl.
      rewrite entries_of_with_entries, (entry_set_entry c child' _ _ E),
        (IH _ _ Hc), set_entry_twice, with_entries_twice.
      reflexivity.
    + destruct (mkdirs (Dir []) rest) as [child'|] eqn:Hc; [|discriminate].
      injection H as <-. simpl.
      rewrite entries_of_with_entries, (entry_app_new c child' _ E),
        (IH _ _ Hc), (set_entry_app_new _ _ _ _ E), with_entries_twice.
      reflexivity.
Qed.

(** It neither adds nor removes anything directly inside the last
    directory. *)
Lemma mkdirs_lookup_child (ps : list string) (c : string) :
  forall n n', mkdirs n ps = Some n' ->
    lookup n' (ps ++ [c]) = lookup n (ps ++ [c]).
Proof.
  induction ps as [|a rest IH]; intros n n' H; simpl in H;
    destruct (entries_of n) as [es|] eqn:En; try discriminate.
  - injection H as <-. reflexivity.
  - destruct (entry a es) as [child|] eqn:E.
    + destruct (mkdirs child rest) as [child'|] eqn:Hc; [|discriminate].
      injection H as <-. simpl.
      rewrite entries_of_with_entries, En, (entry_set_entry a child' _ _ E), E.
      now apply IH.
    + destruct (mkdirs (Dir []) rest) as [child'|] eqn:Hc; [|discriminate].
      injection H as <-. simpl.
      rewrite entries_of_with_entries, En, (entry_app_new a child' _ E), E,
        (IH _ _ Hc).
      destruct rest; reflexivity.
Qed.

Lemma mkdir_parents_idempotent (f f' : FS) (p : Path) :
  mkdir_parents f p = Some f' -> mkdir_parents f' p = Some f'.
Proof.
  unfold mkdir_parents, abs_parts.
  destruct (mkdirs (Dir (tree f)) _) as [[]|] eqn:H; try discriminate.
  intros E. injection E as <-. simpl.
  now rewrite (mkdirs_idempotent _ _ _ H).
Qed.

Lemma mkdir_parents_exists (f f' : FS) (p : Path) (nm : string) :
  mkdir_parents f p = Some f' ->
  exists_ f' (joinname p nm) = exists_ f (joinname p nm).
Proof.
  unfold mkdir_parents, exists_, stat. rewrite !abs_parts_joinname.
  unfold abs_parts.
  destruct (mkdirs (Dir (tree f)) _) as [[]|] eqn:H; try discriminate.
  intros E. injection E as <-. simpl.
  now rewrite (mkdirs_lookup_child _ nm _ _ H).
Qed.

Lemma path_mkdir_twice (p : Path) (w : World) :
  path_mkdir p (snd (path_mkdir p w)) = path_mkdir p w.
Proof.
  unfold path_mkdir.
  destruct (mkdir_parents (fs w) p) as [f'|] eqn:E; simpl.
  - now rewrite (mkdir_parents_idempotent _ _ _ E).
  - now rewrite E.
Qed.

(** ** Resolving an output path *)

Lemma get_output_path_unfold (fuel : nat) (input_file input_base output_dir : Path)
    (w : World) :
  get_output_path fuel input_file input_base output_dir w =
  match candidate_path input_file input_base output_dir with
  | Some c => (path_mkdir (parent c);; get_unique_output_path fuel c) w
  | None => (Raise (ValueError "has an empty name"), w)
  end.
Proof.
  unfold get_output_path, candidate_path, try_except_ValueError, bind,
    or_ValueError, raise, ret.
  destruct (relative_to input_file input_base) as [rel|]; simpl.
  - destruct (with_suffix rel ".md"); simpl; [reflexivity|].
    destruct (with_suffix input_file ".md"); reflexivity.
  - destruct (with_suffix input_file ".md"); reflexivity.
Qed.

(** C7. Resolving the output path of a file a second time, nothing
    having been written in between, gives what the first call gave: the
    same path (or the same exception), and a world the second call no
    longer changes.  The first call may create directories; its
    existence checks change nothing. *)
Theorem get_output_path_idempotent (fuel : nat)
    (input_file input_base output_dir : Path) (w : World) :
  get_output_path fuel input_file input_base output_dir
    (snd (get_output_path fuel input_file input_base output_dir w)) =
  get_output_path fuel input_file input_base output_dir w.
Proof.
  rewrite !get_output_path_unfold.
  destruct (candidate_path input_file input_base output_dir) as [c|];
    [|reflexivity].
  unfold bind.
  pose proof (path_mkdir_twice (parent c) w) as Htwice.
  destruct (path_mkdir (parent c) w) as [[[]| | |] w1] eqn:E1; simpl in *;
    try (rewrite Htwice; reflexivity).
  pose proof (get_unique_output_path_world fuel c w1) as Hw.
  destruct (get_unique_output_path fuel c w1) as [r w2] eqn:E2.
  simpl in Hw. subst w2. simpl. rewrite Htwice, E2. reflexivity.
Qed.

Lemma candidate_path_descendant (input_file input_base output_dir : Path)
    (sub : list string) (nm : string) :
  descends input_file input_base sub nm -> nm <> "" ->
  candidate_path input_file input_base output_dir =
  Some (joinname (mkPath (root output_dir) (parts output_dir ++ sub))
          (stem_of_name nm ++ ".md")).
Proof.
  intros [Hroot Hparts] Hnm.
  unfold candidate_path, relative_to.
  rewrite Hroot, String.eqb_refl, Hparts, drop_prefix_app.
  unfold with_suffix, name, stem, name. simpl.
  rewrite last_last, removelast_last.
  destruct (String.eqb_spec nm ""); [contradiction|].
  unfold joinpath, joinname. simpl. now rewrite <- app_assoc.
Qed.

Lemma candidate_path_stranger (input_file input_base output_dir : Path) :
  (forall sub nm, ~ descends input_file input_base sub nm) ->
  name input_file <> "" ->
  candidate_path input_file input_base output_dir =
  Some (joinname output_dir (stem input_file ++ ".md")).
Proof.
  intros Hnot Hnm.
  assert (Hname : with_suffix input_file ".md" =
                  Some (mkPath (root input_file)
                          (removelast (parts input_file)
                           ++ [(stem input_file ++ ".md")%string]))).
  { unfold with_suffix. now destruct (String.eqb_spec (name input_file) ""). }
  unfold candidate_path. rewrite Hname.
  unfold name at 1 2. simpl. rewrite !last_last.
  unfold relative_to.
  destruct (String.eqb_spec (root input_file) (root input_base)) as [Hroot|];
    [|reflexivity].
  destruct (drop_prefix (parts input_base) (parts input_file)) as [rest|] eqn:E;
    [|reflexivity].
  apply drop_prefix_Some in E.
  destruct rest as [|x rest]; [reflexivity|].
  destruct (@exists_last _ (x :: rest)) as [sub [nm Hrest]]; [discriminate|].
  exfalso. apply (Hnot sub nm). split; [exact Hroot|].
  now rewrite E, Hrest.
Qed.

(** C5. A file below [input_base] (directories [sub], then name [nm])
    resolves to [output_dir / sub / stem(nm).md]; a file that is not
    below it resolves to [output_dir / stem(name).md].  Both hold when
    the directories can be created and nothing exists at that path;
    the directories are the only change to the world.  "Below" is
    pathlib's comparison of the two paths as written. *)
Theorem get_output_path_structure (fuel : nat)
    (input_file input_base output_dir : Path) (w : World) (f' : FS) :
  (forall sub nm,
      descends input_file input_base sub nm -> nm <> "" ->
      let target_dir := mkPath (root output_dir) (parts output_dir ++ sub) in
      let target := joinname target_dir (stem_of_name nm ++ ".md") in
      mkdir_parents (fs w) target_dir = Some f' ->
      exists_ (fs w) target = false ->
      get_output_path fuel input_file input_base output_dir w =
      (Ok target, mkWorld f' (stdout w))) /\
  ((forall sub nm, ~ descends input_file input_base sub nm) ->
   name input_file <> "" ->
   let target := joinname output_dir (stem input_file ++ ".md") in
   mkdir_parents (fs w) output_dir = Some f' ->
   exists_ (fs w) target = false ->
   get_output_path fuel input_file input_base output_dir w =
   (Ok target, mkWorld f' (stdout w))).
Proof.
  assert (Hgo : forall dir nm,
             candidate_path input_file input_base output_dir =
             Some (joinname dir nm) ->
             mkdir_parents (fs w) dir = Some f' ->
             exists_ (fs w) (joinname dir nm) = false ->
             get_output_path fuel input_file input_base output_dir w =
             (Ok (joinname dir nm), mkWorld f' (stdout w))).
  { intros dir nm Hc Hmk Hfree.
    rewrite get_output_path_unfold, Hc, parent_joinname.
    unfold bind, path_mkdir. rewrite Hmk.
    unfold get_unique_output_path, bind, path_exists. simpl.
    now rewrite (mkdir_parents_exists _ _ _ nm Hmk), Hfree. }
  split.
  - intros sub nm Hd Hnm target_dir target Hmk Hfree.
    apply Hgo; auto. now apply candidate_path_descendant.
  - intros Hnot Hnm target Hmk Hfree.
    apply Hgo; auto. now apply candidate_path_stranger.
Qed.

(** The example of the specification: base [/docs], output [/out], file
    [/docs/x/y.pdf]; and a file from elsewhere, [/inbox/z.docx]. *)
Lemma get_output_path_structure_witness :
  get_output_path 0 (of_str "/docs/x/y.pdf") (of_str "/docs") (of_str "/out")
    (mkWorld docs_fs []) =
  (Ok (of_str "/out/x/y.md"),
   mkWorld (mkFS [("docs", Dir [("x", Dir [("y.pdf", File "%PDF")])]);
                  ("out", Dir [("x", Dir [])])] []) []) /\
  get_output_path 0 (of_str "/inbox/z.docx") (of_str "/docs") (of_str "/out")
    (mkWorld docs_fs []) =
  (Ok (of_str "/out/z.md"), mkWorld docs_fs []).
Proof.
  split.
  - apply (proj1 (get_output_path_structure 0 (of_str "/docs/x/y.pdf")
                    (of_str "/docs") (of_str "/out") (mkWorld docs_fs []) _)
             ["x"] "y.pdf").
    + split; reflexivity.
    + discriminate.
    + reflexivity.
    + reflexivity.
  - apply (proj2 (get_output_path_structure 0 (of_str "/inbox/z.docx")
                    (of_str "/docs") (of_str "/out") (mkWorld docs_fs []) _)).
    + intros sub nm [_ H]. simpl in H. discriminate.
    + discriminate.
    + reflexivity.
    + reflexivity.
Defined.

(** ** Discovery *)

Lemma collect_rglob_spec (found : list Path) :
  forall files w,
    collect_rglob found files w =
    (Ok (files ++ filter (fun q => is_file (fs w) q && supported q) found), w).
Proof.
  induction found as [|q found IH]; intros files w; simpl.
  - unfold ret. now rewrite app_nil_r.
  - unfold bind, path_is_file.
    destruct (is_file (fs w) q && supported q); rewrite IH.
    + now rewrite <- app_assoc.
    + reflexivity.
Qed.

Lemma collect_inputs_spec (input_paths : list string) :
  forall files w,
    collect_inputs input_paths files w =
    (Ok (files ++ flat_map (discovered_from (fs w)) input_paths),
     mkWorld (fs w) (stdout w ++ flat_map (reported_for (fs w)) input_paths)).
Proof.
  induction input_paths as [|input_path rest IH]; intros files w.
  - simpl. unfold ret. rewrite !app_nil_r. now destruct w.
  - cbn [collect_inputs flat_map].
    unfold discovered_from at 1, reported_for at 1.
    unfold bind, path_is_file, path_is_dir, path_rglob, emit_status, print.
    destruct (is_file (fs w) (of_str input_path)).
    + destruct (supported (of_str input_path)).
      * rewrite IH. now rewrite <- app_assoc.
      * rewrite IH. simpl. now rewrite <- app_assoc.
    + destruct (is_dir (fs w) (of_str input_path)).
      * rewrite collect_rglob_spec, IH. now rewrite <- app_assoc.
      * rewrite IH. simpl. now rewrite <- app_assoc.
Qed.

Lemma collect_files_run (input_paths : list string) (w : World) :
  collect_files input_paths w =
  (Ok (flat_map (discovered_from (fs w)) input_paths),
   mkWorld (fs w) (stdout w ++ flat_map (reported_for (fs w)) input_paths)).
Proof. apply (collect_inputs_spec input_paths [] w). Qed.






Lemma walk_entries (n : Node) (es : list (string * Node)) :
  entries_of n = Some es ->
  walk n =
  map (fun e => [fst e]) es ++
  flat_map (fun e => let '(nm, child) := e in
              match child with
              | Dir _ => map (cons nm) (walk child)
              | _ => []
              end) es.
Proof. destruct n; simpl; intros H; try discriminate; now injection H as <-. Qed.

(** The walk reaches every entry below a node that lies behind
    directories alone. *)
Lemma walk_complete (rel : list string) :
  forall n m, rel <> [] -> lookup n rel = Some m ->
    through_directories n rel -> In rel (walk n).
Proof.
  induction rel as [|c rest IH]; intros n m Hne H Hdirs; [contradiction|].
  simpl in H. destruct (entries_of n) as [es|] eqn:En; [|discriminate].
  destruct (entry c es) as [child|] eqn:E; [|discriminate].
  rewrite (walk_entries n es En). apply in_or_app.
  destruct rest as [|d rest].
  - left. apply entry_In_pair in E. apply in_map_iff. exists (c, child). auto.
  - right. apply in_flat_map. exists (c, child).
    split; [now apply entry_In_pair|].
    destruct (Hdirs [c] (d :: rest) eq_refl) as [es' Hc]; try discriminate.
    simpl in Hc. rewrite En, E in Hc. injection Hc as ->.
    apply in_map. apply (IH (Dir es') m); [discriminate | exact H |].
    intros pre post Hrel Hpre Hpost.
    destruct (Hdirs (c :: pre) post) as [es1 H1];
      [simpl; now rewrite Hrel | discriminate | exact Hpost |].
    exists es1. simpl in H1. now rewrite En, E in H1.
Qed.

(** [rglob] yields every path strictly below its directory that has an
    entry and lies behind directories alone. *)
Lemma rglob_complete (f : FS) (p : Path) (rel : list string) (n : Node) :
  rel <> [] ->
  stat f p = Some n -> through_directories n rel ->
  lexists f (mkPath (root p) (parts p ++ rel)) = true ->
  In (mkPath (root p) (parts p ++ rel)) (rglob f p).
Proof.
  intros Hne Hn Hdirs. unfold lexists, rglob. rewrite Hn. unfold stat in *.
  replace (abs_parts f (mkPath (root p) (parts p ++ rel)))
    with (abs_parts f p ++ rel).
  2:{ unfold abs_parts. simpl.
      destruct (String.eqb (root p) ""); [now rewrite app_assoc | reflexivity]. }
  rewrite lookup_app, Hn.
  destruct (lookup n rel) as [m|] eqn:E; [|discriminate].
  intros _. apply in_map_iff. exists rel. split; [reflexivity|].
  now apply (walk_complete rel n m).
Qed.

(** A supported regular file below a directory input, behind
    directories alone, is among the files discovered. *)
Lemma collect_files_reaches (input_paths : list string) (w : World)
    (dir : string) (rel : list string) (n : Node) :
  let path := of_str dir in
  let q := mkPath (root path) (parts path ++ rel) in
  In dir input_paths -> is_dir (fs w) path = true -> rel <> [] ->
  stat (fs w) path = Some n -> through_directories n rel ->
  is_file (fs w) q = true -> supported q = true ->
  In q (flat_map (discovered_from (fs w)) input_paths).
Proof.
  intros path q Hin Hdir Hne Hn Hdirs Hfile Hsup.
  apply in_flat_map. exists dir. split; [exact Hin|].
  unfold discovered_from. fold path.
  assert (Hnf : is_file (fs w) path = false).
  { unfold is_dir, is_file in *. now destruct (stat (fs w) path) as [[]|]. }
  rewrite Hnf, Hdir. apply filter_In. split.
  - apply (rglob_complete _ _ _ n); [exact Hne | exact Hn | exact Hdirs |].
    unfold lexists, is_file in *. fold q.
    now destruct (stat (fs w) q).
  - now rewrite Hfile, Hsup.
Qed.

(** The discovery example of the specification: a directory with
    [a.pdf], [sub/b.docx] and [c.txt]; and named inputs of each kind. *)
Example directory_discovery :
  collect_files ["/docs"] (mkWorld mixed_fs []) =
    (Ok [of_str "/docs/a.pdf"; of_str "/docs/sub/b.docx"], mkWorld mixed_fs []) /\
  collect_files ["/docs/c.txt"; "/docs/a.pdf"; "/nowhere"] (mkWorld mixed_fs []) =
    (Ok [of_str "/docs/a.pdf"],
     mkWorld mixed_fs
       [unsupported_warning "/docs/c.txt"; missing_path_error "/nowhere"]).
Proof. split; reflexivity. Qed.

(** C10. An input path that exists but is neither a regular file nor a
    directory (a pipe, a dangling link) makes discovery print the
    ["Path does not exist"] error record and contribute no file; a path
    with no entry at all gets the very same treatment. *)
Theorem collect_files_special_as_missing (input_path : string) (w : World) :
  lexists (fs w) (of_str input_path) = true ->
  is_file (fs w) (of_str input_path) = false ->
  is_dir (fs w) (of_str input_path) = false ->
  collect_files [input_path] w =
  (Ok [], mkWorld (fs w) (stdout w ++ [missing_path_error input_path])) /\
  forall w0,
    lexists (fs w0) (of_str input_path) = false ->
    collect_files [input_path] w0 =
    (Ok [], mkWorld (fs w0) (stdout w0 ++ [missing_path_error input_path])).
Proof.
  intros _ Hf Hd. split.
  - unfold collect_files. rewrite collect_inputs_spec. simpl.
    unfold discovered_from, reported_for. now rewrite Hf, Hd.
  - intros w0 Hmissing.
    unfold collect_files. rewrite collect_inputs_spec. simpl.
    unfold discovered_from, reported_for.
    unfold lexists in Hmissing. unfold is_file, is_dir.
    now destruct (stat (fs w0) (of_str input_path)).
Qed.

Lemma collect_files_special_as_missing_witness :
  collect_files ["/run/fifo.pdf"] (mkWorld pipes_fs []) =
  (Ok [], mkWorld pipes_fs [missing_path_error "/run/fifo.pdf"]) /\
  collect_files ["/run/gone.pdf"] (mkWorld pipes_fs []) =
  (Ok [], mkWorld pipes_fs [missing_path_error "/run/gone.pdf"]).
Proof.
  split.
  - apply (proj1 (collect_files_special_as_missing "/run/fifo.pdf"
                    (mkWorld pipes_fs []) eq_refl eq_refl eq_refl)).
  - apply (proj1 (collect_files_special_as_missing "/run/gone.pdf"
                    (mkWorld pipes_fs []) eq_refl eq_refl eq_refl)).
Defined.

(** ** The driver *)

Lemma progress_since_refl (w : World) : progress_since w w.
Proof. exists []. now rewrite app_nil_r. Qed.

Lemma progress_since_trans (w1 w2 w3 : World) :
  progress_since w1 w2 -> progress_since w2 w3 -> progress_since w1 w3.
Proof.
  intros [n1 [E1 P1]] [n2 [E2 P2]]. exists (n1 ++ n2). split.
  - now rewrite E2, E1, app_assoc.
  - now rewrite forallb_app, P1, P2.
Qed.

Lemma progress_since_say (w : World) (r : StatusRecord) :
  progress_since w (say w (Progress r)).
Proof. now exists [Progress r]. Qed.

Lemma progress_since_stdout (w w' : World) :
  stdout w' = stdout w -> progress_since w w'.
Proof. intros E. exists []. now rewrite app_nil_r. Qed.

Create HintDb driver.
#[local] Hint Resolve progress_since_refl progress_since_say : driver.

Lemma reported_for_progress (f : FS) (input_paths : list string) :
  forallb is_progress (flat_map (reported_for f) input_paths) = true.
Proof.
  induction input_paths as [|i rest IH]; simpl; [reflexivity|].
  rewrite forallb_app, IH, andb_true_r. unfold reported_for.
  destruct (is_file f (of_str i)); [now destruct (supported (of_str i))|].
  now destruct (is_dir f (of_str i)).
Qed.

Lemma get_output_path_stdout (fuel : nat) (f b o : Path) (w : World) :
  stdout (snd (get_output_path fuel f b o w)) = stdout w.
Proof.
  rewrite get_output_path_unfold.
  destruct (candidate_path f b o) as [c|]; [|reflexivity].
  unfold bind, path_mkdir.
  destruct (mkdir_parents (fs w) (parent c)) as [f1|]; [|reflexivity].
  pose proof (get_unique_output_path_world fuel c
                (mkWorld f1 (stdout w))) as Hw.
  destruct (get_unique_output_path fuel c _) as [[]] eqn:E; simpl in *;
    now subst.
Qed.

Lemma input_base_with_run (fallback : Path) (inputs : list string)
    (first : Path) (rest : list Path) (w : World) :
  input_base_with fallback inputs (first :: rest) w =
  (Ok (chosen_base (fs w) inputs first), w).
Proof.
  unfold input_base_with, chosen_base, bind, path_is_dir, ret.
  destruct inputs as [|only [|]]; try reflexivity.
  now destruct (is_dir (fs w) (of_str only)).
Qed.

(** Whether a file can be opened for writing does not depend on the
    text that is to be written. *)
Lemma write_opens (ps : list string) (text text' : string) :
  forall n, write n ps text = None -> write n ps text' = None.
Proof.
  induction ps as [|c rest IH]; intros n H; simpl in *.
  - now destruct n as [| | | |[]].
  - destruct (entries_of n) as [es|]; [|reflexivity].
    destruct (entry c es) as [child|].
    + destruct (write child rest text) eqn:E; [discriminate|].
      now rewrite (IH _ E).
    + now destruct rest.
Qed.

Lemma write_directory (ps : list string) (text : string) (n n' : Node)
    (es : list (string * Node)) :
  write n ps text = Some n' -> entries_of n = Some es ->
  exists es', n' = with_entries n es'.
Proof.
  destruct ps as [|c rest]; simpl; intros H En.
  - now destruct n as [| | | |[]].
  - rewrite En in H. destruct (entry c es) as [child|].
    + destruct (write child rest text); [|discriminate].
      injection H as <-. eauto.
    + destruct rest; [|discriminate]. injection H as <-. eauto.
Qed.

Lemma write_text_any (f : FS) (p : Path) (text text' : string) :
  write_text f p text = None -> write_text f p text' = None.
Proof.
  unfold write_text.
  destruct (write (Dir (tree f)) (abs_parts f p) text) as [n|] eqn:E.
  - destruct (write_directory _ _ _ _ _ E eq_refl) as [es' ->]. discriminate.
  - intros _. now rewrite (write_opens _ text text' _ E).
Qed.

(** Texts that UTF-8 encodes, [U+D7FF] (bytes [ED 9F BF]) the last code
    point before the surrogates among them, and one it does not. *)
Example encodable_examples :
  pystr.encodable "# /docs/a.pdf" = true /\
  pystr.encodable
    (String "237"%char (String "159"%char (String "191"%char EmptyString)))
  = true /\
  pystr.encodable ("# " ++ lone_surrogate) = false.
Proof. repeat split. Qed.

(** A write fails to open exactly when opening alone fails. *)
Lemma write_text_opens (f : FS) (p : Path) (text : string) :
  write_text f p text = None <-> open_w f p = None.
Proof. split; apply write_text_any. Qed.

Section Run.

Variable docling : FS -> string -> Conversion.
Variables (fuel : nat) (output_dir : Path).

(** [convert_file] never raises: the conversion and the write are inside
    its [try], and a failure of either becomes an error record and
    [False]. *)
Lemma convert_file_run (f o : Path) (w : World) :
  convert_file docling f o w =
  match docling (fs w) (str f) with
  | Markdown text =>
      match write_text (fs w) o text with
      | Some f' =>
          if pystr.encodable text then (Ok true, mkWorld f' (stdout w))
          else
            match open_w (fs w) o with
            | Some opened =>
                (Ok false,
                 say (mkWorld opened (stdout w))
                   (conversion_error_line f "surrogates not allowed"))
            | None => (Ok false, say w (conversion_error_line f (str o)))
            end
      | None => (Ok false, say w (conversion_error_line f (str o)))
      end
  | Fails msg => (Ok false, say w (conversion_error_line f msg))
  end.
Proof.
  unfold convert_file, try_except_Exception, bind, docling_convert,
    path_write_text.
  destruct (docling (fs w) (str f)); [|reflexivity].
  destruct (write_text (fs w) o text) eqn:E.
  - destruct (open_w (fs w) o) eqn:E0.
    + now destruct (pystr.encodable text).
    + apply (write_text_opens _ _ text) in E0. congruence.
  - now rewrite (proj1 (write_text_opens _ _ _) E).
Qed.

Lemma convert_file_progress (f o : Path) (w : World) :
  exists b w', convert_file docling f o w = (Ok b, w') /\ progress_since w w'.
Proof.
  rewrite convert_file_run.
  destruct (docling (fs w) (str f)).
  - destruct (write_text (fs w) o text).
    + destruct (pystr.encodable text).
      * eexists _, _. split; [reflexivity|]. now apply progress_since_stdout.
      * destruct (open_w (fs w) o);
          eexists _, _; (split; [reflexivity|]).
        -- now exists [conversion_error_line f "surrogates not allowed"].
        -- apply progress_since_say.
    + eexists _, _. split; [reflexivity|]. apply progress_since_say.
  - eexists _, _. split; [reflexivity|]. apply progress_since_say.
Qed.

(** One turn of the loop, by the outcome of its two calls. *)
Lemma loop_body_run (input_base : Path) (total idx : nat) (f : Path)
    (t : Tally) (w : World) :
  loop_body docling fuel input_base output_dir total idx f t w =
  match get_output_path fuel f input_base output_dir
          (say w (converting_line idx total f)) with
  | (Ok o, w1) =>
      match convert_file docling f o w1 with
      | (Ok true, w2) =>
          (Ok (mkTally (tally_successful t + 1) (tally_failed t)
                 (tally_results t ++ [mkResult (str f) (str o) true])),
           say w2 (converted_line idx total f))
      | (Ok false, w2) =>
          (Ok (mkTally (tally_successful t) (tally_failed t + 1)
                 (tally_results t ++ [mkResult (str f) "" false])), w2)
      | (Raise e, w2) => (Raise e, w2)
      | (Exit c, w2) => (Exit c, w2)
      | (OutOfFuel, w2) => (OutOfFuel, w2)
      end
  | (Raise e, w1) => (Raise e, w1)
  | (Exit c, w1) => (Exit c, w1)
  | (OutOfFuel, w1) => (OutOfFuel, w1)
  end.
Proof.
  unfold loop_body, bind, emit_status, print.
  fold (converting_line idx total f).
  fold (say w (converting_line idx total f)).
  destruct (get_output_path fuel f input_base output_dir _)
    as [[o| | |] w1]; try reflexivity.
  destruct (convert_file docling f o w1) as [[[]| | |] w2]; reflexivity.
Qed.

(** A turn that ends normally adds one result, for its file, and one to
    one of the two counters; it prints progress records only. *)
Lemma loop_body_ok (input_base : Path) (total idx : nat) (f : Path)
    (t t' : Tally) (w w' : World) :
  loop_body docling fuel input_base output_dir total idx f t w = (Ok t', w') ->
  exists r,
    tally_results t' = tally_results t ++ [r] /\
    tally_successful t' = tally_successful t + (if success r then 1 else 0) /\
    tally_failed t' = tally_failed t + (if success r then 0 else 1) /\
    input r = str f /\
    (success r = false -> output r = "") /\
    progress_since w w'.
Proof.
  rewrite loop_body_run.
  pose proof (get_output_path_stdout fuel f input_base output_dir
                (say w (converting_line idx total f))) as Hout.
  destruct (get_output_path fuel f input_base output_dir _)
    as [[o| | |] w1]; try discriminate.
  destruct (convert_file_progress f o w1) as [b [w2 [E P2]]].
  rewrite E.
  assert (P1 : progress_since w w2).
  { eapply progress_since_trans; [apply progress_since_say|].
    eapply progress_since_trans; [apply progress_since_stdout, Hout|].
    exact P2. }
  destruct b; intros H; injection H as <- <-.
  - exists (mkResult (str f) (str o) true). simpl.
    repeat split; try lia; try discriminate.
    eapply progress_since_trans; [exact P1|].
    apply (progress_since_say w2).
  - exists (mkResult (str f) "" false). simpl.
    repeat split; try lia. exact P1.
Qed.

(** The loop, when it ends normally: one result per file, in the order
    of the files; the counters count the results by their flag. *)
Lemma convert_each_ok (input_base : Path) (total : nat) (files : list Path) :
  forall idx t t' w w',
    convert_each docling fuel input_base output_dir total idx files t w
    = (Ok t', w') ->
    exists rs,
      tally_results t' = tally_results t ++ rs /\
      map input rs = map str files /\
      tally_successful t' =
        tally_successful t + List.length (filter success rs) /\
      tally_failed t' =
        tally_failed t + List.length (filter (fun r => negb (success r)) rs) /\
      Forall (fun r => success r = false -> output r = "") rs /\
      progress_since w w'.
Proof.
  induction files as [|f rest IH]; intros idx t t' w w' H.
  - injection H as <- <-. exists []. simpl.
    rewrite app_nil_r. repeat split; auto with driver.
  - cbn [convert_each] in H. unfold bind in H.
    destruct (loop_body docling fuel input_base output_dir total idx f t w)
      as [[t1| | |] w1] eqn:E; try discriminate.
    apply loop_body_ok in E as [r [Hr [Hs [Hf [Hin [Hout P1]]]]]].
    apply IH in H as [rs [Hrs [Hmap [Hs' [Hf' [Hall P2]]]]]].
    exists (r :: rs). repeat split.
    + rewrite Hrs, Hr, <- app_assoc. reflexivity.
    + simpl. now rewrite Hin, Hmap.
    + rewrite Hs', Hs. simpl. destruct (success r); simpl; lia.
    + rewrite Hf', Hf. simpl. destruct (success r); simpl; lia.
    + constructor; assumption.
    + eapply progress_since_trans; eassumption.
Qed.

(** [main] from the collected files on, when there is a first file. *)
Lemma convert_batch_run (fallback : Path) (inputs : list string)
    (first : Path) (rest : list Path) (w : World) :
  convert_batch docling fallback fuel inputs output_dir (first :: rest) w =
  let files := first :: rest in
  let total := List.length files in
  let w1 := say w (ready_line total) in
  match convert_each docling fuel (chosen_base (fs w) inputs first) output_dir
          total 1 files (mkTally 0 0 []) w1 with
  | (Ok t, w2) => (Ok tt, say w2 (Complete (summary_of total t)))
  | (Raise e, w2) => (Raise e, w2)
  | (Exit c, w2) => (Exit c, w2)
  | (OutOfFuel, w2) => (OutOfFuel, w2)
  end.
Proof.
  unfold convert_batch.
  unfold bind at 1. unfold ret at 1.
  unfold bind at 1. unfold emit_status at 1. unfold print at 1.
  fold (ready_line (List.length (first :: rest))).
  fold (say w (ready_line (List.length (first :: rest)))).
  unfold bind at 1. rewrite input_base_with_run.
  unfold bind. cbn zeta.
  destruct (convert_each docling fuel _ output_dir _ 1 (first :: rest) _ _)
    as [[t| | |] w2]; reflexivity.
Qed.

(** An empty batch: the fatal error record, then [sys.exit(1)]. *)
Lemma convert_batch_empty (fallback : Path) (inputs : list string) (w : World) :
  convert_batch docling fallback fuel inputs output_dir [] w =
  (Exit 1, say w fatal_line).
Proof. reflexivity. Qed.

End Run.

Lemma main_with_run (docling : FS -> string -> Conversion) (fallback : Path)
    (fuel : nat) (inputs : list string) (output : string) (w : World) :
  main_with docling fallback fuel inputs output w =
  match mkdir_parents (fs w) (of_str output) with
  | Some f1 =>
      convert_batch docling fallback fuel inputs (of_str output)
        (flat_map (discovered_from f1) inputs)
        (mkWorld f1 ((stdout w ++ [starting_line])
                     ++ flat_map (reported_for f1) inputs))
  | None => (Raise (OSError (str (of_str output))), w)
  end.
Proof.
  unfold main_with, bind, path_mkdir, emit_status, print.
  destruct (mkdir_parents (fs w) (of_str output)) as [f1|]; [|reflexivity].
  rewrite collect_files_run. reflexivity.
Qed.

(** ** The claims about a run *)

(** C1. A run that reaches the final summary prints it last, after
    progress records only, and in it [successful + failed = total], the
    total is the number of discovered files, and [results] holds one
    result per discovered file, in discovery order; the two counters
    count the results by their [success] flag. *)
Theorem main_summary_invariant (docling : FS -> string -> Conversion)
    (fuel : nat) (inputs : list string) (output : string) (w w' : World) :
  main docling fuel inputs output w = (Ok tt, w') ->
  exists f1 pre s,
    mkdir_parents (fs w) (of_str output) = Some f1 /\
    stdout w' = stdout w ++ pre ++ [Complete s] /\
    forallb is_progress pre = true /\
    let files := flat_map (discovered_from f1) inputs in
    summary_total s = List.length files /\
    successful s + failed s = summary_total s /\
    List.length (results s) = List.length files /\
    map input (results s) = map str files /\
    successful s = List.length (filter success (results s)) /\
    failed s = List.length (filter (fun r => negb (success r)) (results s)).
Proof.
  unfold main. rewrite main_with_run.
  destruct (mkdir_parents (fs w) (of_str output)) as [f1|]; [|discriminate].
  destruct (flat_map (discovered_from f1) inputs) as [|first rest] eqn:Efiles.
  - rewrite convert_batch_empty. discriminate.
  - rewrite convert_batch_run. cbn zeta.
    set (w1 := say _ (ready_line _)).
    destruct (convert_each docling fuel _ (of_str output) _ 1 (first :: rest) _ w1)
      as [[t| | |] w2] eqn:E; try discriminate.
    intros H. injection H as <-.
    apply convert_each_ok in E
      as [rs [Hrs [Hmap [Hs [Hf [_ [new [Hnew Pnew]]]]]]]].
    simpl in Hrs, Hs, Hf. subst w1.
    exists f1, ([starting_line] ++ flat_map (reported_for f1) inputs
                ++ [ready_line (List.length (first :: rest))] ++ new),
      (summary_of (List.length (first :: rest)) t).
    split; [reflexivity|]. split; [|split].
    + simpl stdout at 1. rewrite Hnew. simpl stdout.
      now rewrite <- !app_assoc.
    + rewrite !forallb_app, reported_for_progress, Pnew. reflexivity.
    + assert (Hlen : List.length rs = List.length (first :: rest)).
      { rewrite <- (length_map input rs), Hmap. apply length_map. }
      unfold summary_of. cbn [summary_total successful failed results].
      rewrite Efiles, Hrs, Hs, Hf.
      pose proof (filter_length success rs) as Hsplit.
      repeat split; auto; lia.
Qed.

Lemma main_summary_invariant_witness :
  exists f1 pre s,
    mkdir_parents trio_fs (of_str "/out") = Some f1 /\
    stdout (snd (main picky_converter 1 ["/docs"] "/out" (mkWorld trio_fs [])))
    = [] ++ pre ++ [Complete s] /\
    forallb is_progress pre = true /\
    let files := flat_map (discovered_from f1) ["/docs"] in
    summary_total s = List.length files /\
    successful s + failed s = summary_total s /\
    List.length (results s) = List.length files /\
    map input (results s) = map str files /\
    successful s = List.length (filter success (results s)) /\
    failed s = List.length (filter (fun r => negb (success r)) (results s)).
Proof.
  apply (main_summary_invariant picky_converter 1 ["/docs"] "/out"
           (mkWorld trio_fs [])
           (snd (main picky_converter 1 ["/docs"] "/out" (mkWorld trio_fs [])))).
  reflexivity.
Defined.



(** C3, at [--input /docs --output /out] on [blocked_fs]: discovery
    finds one file, and the run ends in the [OSError] that [mkdir]
    raises inside [get_output_path], uncaught, after the ["converting"]
    record: no summary and no fatal error record are printed.  Whatever
    the converter and the fuel. *)
Theorem main_crashes_with_a_discovered_file
    (docling : FS -> string -> Conversion) (fuel : nat) :
  collect_files ["/docs"] (mkWorld blocked_fs []) =
    (Ok [of_str "/docs/x/y.pdf"], mkWorld blocked_fs []) /\
  main docling fuel ["/docs"] "/out" (mkWorld blocked_fs []) =
    (Raise (OSError "/out/x"),
     mkWorld blocked_fs
       [starting_line; ready_line 1;
        converting_line 1 1 (of_str "/docs/x/y.pdf")]).
Proof. split; reflexivity. Qed.

(** The empty batch: the fatal error record, exit status 1, no summary. *)
Lemma main_empty_batch (docling : FS -> string -> Conversion) (fuel : nat)
    (inputs : list string) (output : string) (w : World) (f1 : FS) :
  mkdir_parents (fs w) (of_str output) = Some f1 ->
  flat_map (discovered_from f1) inputs = [] ->
  main docling fuel inputs output w =
  (Exit 1,
   mkWorld f1 (stdout w ++ [starting_line]
               ++ flat_map (reported_for f1) inputs ++ [fatal_line])).
Proof.
  intros Hmk Hnone. unfold main. rewrite main_with_run, Hmk, Hnone.
  rewrite convert_batch_empty. unfold say. simpl.
  now rewrite <- !app_assoc.
Qed.

(** C9. The [Path('.')] arm of the base-path computation is never
    taken.  An empty list of files ends the run before the base path is
    computed; with a first file, the base path is the single directory
    input or the parent of that file; and [main] is the same function
    whatever value the arm holds. *)
Theorem path_dot_fallback_unreachable (docling : FS -> string -> Conversion)
    (fallback : Path) (fuel : nat) (inputs : list string) (output : string)
    (w : World) :
  convert_batch docling fallback fuel inputs (of_str output) [] w =
    (Exit 1, say w fatal_line) /\
  (forall first rest,
      input_base_with fallback inputs (first :: rest) w =
      (Ok (match inputs with
           | [only] =>
               if is_dir (fs w) (of_str only) then of_str only else parent first
           | _ => parent first
           end), w)) /\
  main_with docling fallback fuel inputs output w =
    main docling fuel inputs output w.
Proof.
  split; [reflexivity|]. split.
  - intros first rest. apply input_base_with_run.
  - unfold main. rewrite !main_with_run.
    destruct (mkdir_parents (fs w) (of_str output)) as [f1|]; [|reflexivity].
    destruct (flat_map (discovered_from f1) inputs) as [|first rest].
    + reflexivity.
    + now rewrite !convert_batch_run.
Qed.

(** * More of the converter *)

(** ** What stays in the file system *)

Lemma same_kind_refl (x : Node) : same_kind x x.
Proof. destruct x; simpl; auto. Qed.

Lemma same_kind_trans (x y z : Node) :
  same_kind x y -> same_kind y z -> same_kind x z.
Proof. destruct x, y, z; simpl; intros; subst; auto; contradiction. Qed.

Lemma node_kept_refl (n : Node) : node_kept n n.
Proof. intros ps x H. exists x. split; [exact H | apply same_kind_refl]. Qed.

Lemma kept_refl (f : FS) : kept f f.
Proof. split; [reflexivity | apply node_kept_refl]. Qed.

Lemma kept_trans (f1 f2 f3 : FS) : kept f1 f2 -> kept f2 f3 -> kept f1 f3.
Proof.
  intros [C1 K1] [C2 K2]. split; [congruence|].
  intros ps x H. destruct (K1 ps x H) as [y [Hy Sy]].
  destruct (K2 ps y Hy) as [z [Hz Sz]].
  exists z. split; [exact Hz | eapply same_kind_trans; eauto].
Qed.

Lemma entry_set_entry_other (c k : string) (v : Node) (es : list (string * Node)) :
  k <> c -> entry k (set_entry c v es) = entry k es.
Proof.
  intros Hne. induction es as [|[a u] es IH]; simpl; [reflexivity|].
  destruct (String.eqb_spec a c) as [->|Hac]; simpl.
  - destruct (String.eqb_spec c k); [congruence | reflexivity].
  - destruct (String.eqb a k); [reflexivity | exact IH].
Qed.

Lemma entry_app_old (k : string) (x : Node) (es more : list (string * Node)) :
  entry k es = Some x -> entry k (es ++ more) = Some x.
Proof.
  induction es as [|[a u] es IH]; simpl; [discriminate|].
  destruct (String.eqb a k); auto.
Qed.

Lemma same_kind_with_entries (n : Node) (es es' : list (string * Node)) :
  entries_of n = Some es -> same_kind n (with_entries n es').
Proof. destruct n; simpl; intros H; try discriminate; exact I. Qed.

(** Changing one entry of a directory for a node that keeps what the old
    one had keeps what the directory had. *)
Lemma node_kept_set_entry (n : Node) (c : string) (child child' : Node)
    (es : list (string * Node)) :
  entries_of n = Some es ->
  entry c es = Some child -> node_kept child child' ->
  node_kept n (with_entries n (set_entry c child' es)).
Proof.
  intros En E K [|d qs] x H; simpl in *.
  - injection H as <-. eexists. split; [reflexivity|].
    now apply (same_kind_with_entries _ es).
  - rewrite entries_of_with_entries. rewrite En in H.
    destruct (String.eqb_spec d c) as [->|Hne].
    + rewrite (entry_set_entry c child' _ _ E). rewrite E in H. now apply K.
    + rewrite (entry_set_entry_other c d child' es Hne).
      destruct (entry d es) as [other|]; [|discriminate].
      exists x. split; [exact H | apply same_kind_refl].
Qed.

(** One more entry at the end of a directory keeps what it had. *)
Lemma node_kept_app (n : Node) (es more : list (string * Node)) :
  entries_of n = Some es -> node_kept n (with_entries n (es ++ more)).
Proof.
  intros En [|d qs] x H; simpl in *.
  - injection H as <-. eexists. split; [reflexivity|].
    now apply (same_kind_with_entries _ es).
  - rewrite entries_of_with_entries. rewrite En in H.
    destruct (entry d es) as [other|] eqn:E; [|discriminate].
    rewrite (entry_app_old d other es more E).
    exists x. split; [exact H | apply same_kind_refl].
Qed.

Lemma mkdirs_kept (ps : list string) :
  forall n n', mkdirs n ps = Some n' -> node_kept n n'.
Proof.
  induction ps as [|c rest IH]; intros n n' H; simpl in H;
    destruct (entries_of n) as [es|] eqn:En; try discriminate.
  - injection H as <-. apply node_kept_refl.
  - destruct (entry c es) as [child|] eqn:E.
    + destruct (mkdirs child rest) as [child'|] eqn:Hc; [|discriminate].
      injection H as <-.
      apply (node_kept_set_entry n c child child' es En E), (IH _ _ Hc).
    + destruct (mkdirs (Dir []) rest); [|discriminate].
      injection H as <-. now apply node_kept_app.
Qed.

(** A write where there is no entry keeps all there was. *)
Lemma write_new_kept (ps : list string) (text : string) :
  forall n n',
    lookup n ps = None -> write n ps text = Some n' -> node_kept n n'.
Proof.
  induction ps as [|c rest IH]; intros n n' Hfree H; simpl in *.
  - discriminate.
  - destruct (entries_of n) as [es|] eqn:En; [|discriminate].
    destruct (entry c es) as [child|] eqn:E.
    + destruct (write child rest text) as [child'|] eqn:Hc; [|discriminate].
      injection H as <-.
      apply (node_kept_set_entry n c child child' es En E), (IH _ _ Hfree Hc).
    + destruct rest; [|discriminate].
      injection H as <-. now apply node_kept_app.
Qed.

(** *** What survives a write *)

Lemma still_refl (x : Node) : still x x.
Proof. destruct x; simpl; auto. Qed.

Lemma same_kind_still (x y : Node) : same_kind x y -> still x y.
Proof. destruct x; simpl; auto. Qed.

Lemma still_trans (x y z : Node) : still x y -> still y z -> still x z.
Proof. destruct x, y, z; simpl; intros; subst; auto; contradiction. Qed.

Lemma node_kept_survives (n n' : Node) : node_kept n n' -> node_survives n n'.
Proof.
  intros K ps x H. destruct (K ps x H) as [x' [H' S]].
  exists x'. split; [exact H' | now apply same_kind_still].
Qed.

Lemma kept_survives (f f' : FS) : kept f f' -> survives f f'.
Proof. intros [C K]. split; [exact C | now apply node_kept_survives]. Qed.

Lemma survives_refl (f : FS) : survives f f.
Proof. apply kept_survives, kept_refl. Qed.

Lemma survives_trans (f1 f2 f3 : FS) :
  survives f1 f2 -> survives f2 f3 -> survives f1 f3.
Proof.
  intros [C1 K1] [C2 K2]. split; [congruence|].
  intros ps x H. destruct (K1 ps x H) as [y [Hy Sy]].
  destruct (K2 ps y Hy) as [z [Hz Sz]].
  exists z. split; [exact Hz | eapply still_trans; eauto].
Qed.

Lemma node_survives_set_entry (n : Node) (c : string) (child child' : Node)
    (es : list (string * Node)) :
  entries_of n = Some es ->
  entry c es = Some child -> node_survives child child' ->
  node_survives n (with_entries n (set_entry c child' es)).
Proof.
  intros En E K [|d qs] x H; simpl in *.
  - injection H as <-. eexists. split; [reflexivity|].
    apply same_kind_still. now apply (same_kind_with_entries _ es).
  - rewrite entries_of_with_entries. rewrite En in H.
    destruct (String.eqb_spec d c) as [->|Hne].
    + rewrite (entry_set_entry c child' _ _ E). rewrite E in H. now apply K.
    + rewrite (entry_set_entry_other c d child' es Hne).
      destruct (entry d es) as [other|]; [|discriminate].
      exists x. split; [exact H | apply still_refl].
Qed.

(** A write where nothing exists, a link to nothing at most, removes
    and overwrites nothing. *)
Lemma write_new_survives (ps : list string) (text : string) :
  forall n n',
    match lookup n ps with
    | Some (Dangling _) | None => True
    | Some _ => False
    end ->
    write n ps text = Some n' -> node_survives n n'.
Proof.
  induction ps as [|c rest IH]; intros n n' Hfree H; simpl in *.
  - destruct n as [| | | |[]]; try contradiction; try discriminate.
    injection H as <-. intros [|d qs] x Hx; simpl in *; [|discriminate].
    injection Hx as <-. eexists. split; [reflexivity | exact I].
  - destruct (entries_of n) as [es|] eqn:En; [|discriminate].
    destruct (entry c es) as [child|] eqn:E.
    + destruct (write child rest text) as [child'|] eqn:Hc; [|discriminate].
      injection H as <-.
      apply (node_survives_set_entry n c child child' es En E),
        (IH _ _ Hfree Hc).
    + destruct rest; [|discriminate].
      injection H as <-. now apply node_kept_survives, node_kept_app.
Qed.

Lemma mkdir_parents_kept (f f' : FS) (p : Path) :
  mkdir_parents f p = Some f' -> kept f f'.
Proof.
  unfold mkdir_parents.
  destruct (mkdirs (Dir (tree f)) (abs_parts f p)) as [[]|] eqn:H;
    try discriminate.
  intros E. injection E as <-. split; [reflexivity|]. simpl.
  apply (mkdirs_kept _ _ _ H).
Qed.

Lemma write_text_new_kept (f f' : FS) (p : Path) (text : string) :
  lexists f p = false -> write_text f p text = Some f' -> kept f f'.
Proof.
  unfold lexists, stat, write_text. intros Hfree.
  destruct (write (Dir (tree f)) (abs_parts f p) text) as [[]|] eqn:H;
    try discriminate.
  intros E. injection E as <-. split; [reflexivity|]. simpl.
  apply (write_new_kept _ text _ _) in H; [exact H|].
  now destruct (lookup (Dir (tree f)) (abs_parts f p)).
Qed.

Lemma write_text_new_survives (f f' : FS) (p : Path) (text : string) :
  exists_ f p = false -> write_text f p text = Some f' -> survives f f'.
Proof.
  unfold exists_, stat, write_text. intros Hfree.
  destruct (write (Dir (tree f)) (abs_parts f p) text) as [[]|] eqn:H;
    try discriminate.
  intros E. injection E as <-. split; [reflexivity|]. simpl.
  apply (write_new_survives _ text _ _) in H; [exact H|].
  destruct (lookup (Dir (tree f)) (abs_parts f p)) as [[]|];
    try discriminate; exact I.
Qed.

(** What is kept, by path. *)
Lemma kept_stat (f f' : FS) (p : Path) (x : Node) :
  kept f f' -> stat f p = Some x ->
  exists x', stat f' p = Some x' /\ same_kind x x'.
Proof.
  intros [Hcwd K]. unfold stat, abs_parts. rewrite Hcwd. apply K.
Qed.

Lemma kept_is_file (f f' : FS) (p : Path) :
  kept f f' -> is_file f p = true -> is_file f' p = true.
Proof.
  intros K. unfold is_file.
  destruct (stat f p) as [[c| | | |]|] eqn:E; try discriminate.
  destruct (kept_stat f f' p _ K E) as [[] [-> S]]; simpl in S;
    try contradiction. reflexivity.
Qed.

Lemma survives_stat (f f' : FS) (p : Path) (x : Node) :
  survives f f' -> stat f p = Some x ->
  exists x', stat f' p = Some x' /\ still x x'.
Proof.
  intros [Hcwd K]. unfold stat, abs_parts. rewrite Hcwd. apply K.
Qed.

(** ** Names and extensions *)

Lemma append_assoc (a b c : string) : ((a ++ b) ++ c = a ++ (b ++ c))%string.
Proof. induction a as [|x a IH]; simpl; [reflexivity | now rewrite IH]. Qed.

Lemma substring_prefix (a b : string) :
  substring 0 (String.length a) (a ++ b) = a.
Proof.
  induction a as [|x a IH]; simpl.
  - destruct b; reflexivity.
  - now rewrite IH.
Qed.

Lemma substring_suffix (a b : string) :
  substring (String.length a) (String.length b) (a ++ b) = b.
Proof.
  induction a as [|x a IH]; simpl; [apply substring_all | exact IH].
Qed.

(** The last dot of [a ++ "." ++ b], when [b] has none. *)
Lemma rfind_dotted (a b : string) :
  pystr.rfind "." b = None ->
  pystr.rfind "." (a ++ String "." b) = Some (String.length a).
Proof.
  intros Hb. induction a as [|x a IH]; simpl.
  - now rewrite Hb.
  - now rewrite IH.
Qed.

Lemma rfind_Some (s : string) :
  forall i, pystr.rfind "." s = Some i ->
    exists a b, s = (a ++ String "." b)%string /\ String.length a = i /\
                pystr.rfind "." b = None.
Proof.
  induction s as [|x s IH]; intros i H; simpl in H; [discriminate|].
  destruct (pystr.rfind "." s) as [j|] eqn:E.
  - injection H as <-. destruct (IH j eq_refl) as [a [b [-> [Ha Hb]]]].
    exists (String x a), b. simpl. repeat split; auto.
  - destruct (Ascii.eqb_spec x "."%char) as [->|]; [|discriminate].
    injection H as <-. exists "", s. simpl. repeat split; auto.
Qed.

(** A name made of a stem, a dot and a dotless extension splits there. *)
Lemma suffix_index_dotted (a b : string) :
  a <> "" -> b <> "" -> pystr.rfind "." b = None ->
  suffix_index (a ++ String "." b) = Some (String.length a).
Proof.
  intros Ha Hb Hnodot. unfold suffix_index. rewrite (rfind_dotted a b Hnodot).
  rewrite append_length. cbn [String.length].
  assert (La : 0 < String.length a) by (destruct a; [contradiction | simpl; lia]).
  assert (Lb : 0 < String.length b) by (destruct b; [contradiction | simpl; lia]).
  rewrite (proj2 (Nat.ltb_lt _ _) La).
  rewrite (proj2 (Nat.ltb_lt (String.length a)
                    (String.length a + S (String.length b) - 1)));
    [reflexivity | lia].
Qed.

Lemma suffix_of_dotted (a b : string) :
  a <> "" -> b <> "" -> pystr.rfind "." b = None ->
  suffix_of_name (a ++ String "." b) = String "." b /\
  stem_of_name (a ++ String "." b) = a.
Proof.
  intros Ha Hb Hnodot. unfold suffix_of_name, stem_of_name.
  rewrite (suffix_index_dotted a b Ha Hb Hnodot). split.
  - rewrite append_length.
    replace (String.length a + String.length (String "." b) - String.length a)
      with (String.length (String "." b)) by lia.
    apply substring_suffix.
  - apply substring_prefix.
Qed.

(** A name with a suffix is a stem, a dot and a dotless extension. *)
Lemma suffix_split (nm : string) :
  suffix_of_name nm <> "" ->
  exists a b, nm = (a ++ String "." b)%string /\ a <> "" /\ b <> "" /\
              pystr.rfind "." b = None /\
              suffix_of_name nm = String "." b /\ stem_of_name nm = a.
Proof.
  intros Hs. unfold suffix_of_name in Hs.
  destruct (suffix_index nm) as [i|] eqn:E; [|contradiction].
  unfold suffix_index in E.
  destruct (pystr.rfind "." nm) as [j|] eqn:R; [|discriminate].
  destruct (Nat.ltb 0 j && Nat.ltb j (String.length nm - 1)) eqn:C;
    [|discriminate].
  apply andb_true_iff in C as [C1 C2].
  apply Nat.ltb_lt in C1. apply Nat.ltb_lt in C2.
  destruct (rfind_Some nm j R) as [a [b [-> [Ha Hb]]]].
  rewrite append_length in C2. simpl in C2.
  assert (Hane : a <> "") by (intros ->; simpl in Ha; lia).
  assert (Hbne : b <> "") by (intros ->; simpl in C2; lia).
  exists a, b. repeat split; auto; now apply suffix_of_dotted.
Qed.

Lemma stem_of_name_nonempty (nm : string) : nm <> "" -> stem_of_name nm <> "".
Proof.
  intros Hnm. destruct (string_dec (suffix_of_name nm) "") as [E|E].
  - unfold suffix_of_name, stem_of_name in *.
    destruct (suffix_index nm) as [i|] eqn:I; [|exact Hnm].
    pose proof (stem_suffix_name nm) as S.
    unfold stem_of_name, suffix_of_name in S. rewrite I in S. rewrite E in S.
    intros Z. rewrite Z in S. simpl in S. now subst.
  - destruct (suffix_split nm E) as [a [b [_ [Ha [_ [_ [_ ->]]]]]]]. exact Ha.
Qed.

(** Putting [.md] after a stem gives a name whose suffix is [.md] and
    whose stem is that stem. *)
Lemma md_name (s : string) :
  s <> "" ->
  suffix_of_name (s ++ ".md") = ".md" /\ stem_of_name (s ++ ".md") = s.
Proof. intros Hs. now apply (suffix_of_dotted s "md"). Qed.

(** Numbering a name that has a suffix keeps the suffix. *)
Lemma numbered_name_suffix (nm : string) (k : nat) :
  suffix_of_name nm <> "" ->
  suffix_of_name (numbered_name (stem_of_name nm) (suffix_of_name nm) k)
  = suffix_of_name nm.
Proof.
  intros Hs. destruct (suffix_split nm Hs) as [a [b [_ [Ha [Hb [Hnd [-> ->]]]]]]].
  unfold numbered_name.
  replace (a ++ "_" ++ pystr.of_nat k ++ String "." b)%string
    with ((a ++ "_" ++ pystr.of_nat k) ++ String "." b)%string
    by (now rewrite !append_assoc).
  apply suffix_of_dotted; auto.
  destruct a; [contradiction | discriminate].
Qed.

(** ** What resolving an output path guarantees *)

Lemma with_suffix_Some (p : Path) (sfx : string) :
  name p <> "" ->
  with_suffix p sfx =
  Some (mkPath (root p) (removelast (parts p) ++ [(stem p ++ sfx)%string])).
Proof.
  intros H. unfold with_suffix. now destruct (String.eqb_spec (name p) "").
Qed.

Lemma with_suffix_None (p : Path) (sfx : string) :
  with_suffix p sfx = None -> name p = "".
Proof.
  unfold with_suffix. now destruct (String.eqb_spec (name p) "").
Qed.

(** The candidate is a directory and a name made of a stem and [.md]. *)
Lemma candidate_path_shape (f b o c : Path) :
  candidate_path f b o = Some c ->
  exists dir s, c = joinname dir (s ++ ".md") /\ s <> "".
Proof.
  assert (Hby : forall c,
             match with_suffix f ".md" with
             | Some renamed => Some (joinname o (name renamed))
             | None => None
             end = Some c ->
             exists dir s, c = joinname dir (s ++ ".md") /\ s <> "").
  { intros c0 H. destruct (string_dec (name f) "") as [E|E].
    - unfold with_suffix in H. rewrite E in H. discriminate.
    - rewrite (with_suffix_Some f ".md" E) in H. injection H as <-.
      unfold name at 1. simpl. rewrite last_last.
      exists o, (stem f). split; [reflexivity|].
      now apply stem_of_name_nonempty. }
  unfold candidate_path.
  destruct (relative_to f b) as [rel|] eqn:R; [|apply Hby].
  destruct (string_dec (name rel) "") as [E|E].
  - unfold with_suffix at 1. rewrite E. simpl. apply Hby.
  - rewrite (with_suffix_Some rel ".md" E). intros H. injection H as <-.
    assert (Hroot : root rel = "").
    { unfold relative_to in R. destruct (String.eqb (root f) (root b));
        [|discriminate].
      destruct (drop_prefix (parts b) (parts f)); [|discriminate].
      now injection R as <-. }
    unfold joinpath. simpl. rewrite Hroot. simpl.
    exists (mkPath (root o) (parts o ++ removelast (parts rel))), (stem rel).
    split; [unfold joinname; simpl; now rewrite app_assoc|].
    now apply stem_of_name_nonempty.
Qed.

Lemma candidate_path_None (f b o : Path) :
  candidate_path f b o = None -> name f = "".
Proof.
  unfold candidate_path. intros H.
  apply (with_suffix_None f ".md").
  destruct (with_suffix f ".md"); [|reflexivity].
  destruct (relative_to f b) as [rel|]; [|discriminate].
  destruct (with_suffix rel ".md"); discriminate.
Qed.

Lemma mkdirs_is_dir (ps : list string) :
  forall n n', mkdirs n ps = Some n' ->
    exists m es, lookup n' ps = Some m /\ entries_of m = Some es.
Proof.
  induction ps as [|c rest IH]; intros n n' H; simpl in H;
    destruct (entries_of n) as [es|] eqn:En; try discriminate.
  - injection H as <-. simpl. eauto.
  - destruct (entry c es) as [child|] eqn:E.
    + destruct (mkdirs child rest) as [child'|] eqn:Hc; [|discriminate].
      injection H as <-. simpl.
      rewrite entries_of_with_entries, (entry_set_entry c child' _ _ E).
      apply (IH _ _ Hc).
    + destruct (mkdirs (Dir []) rest) as [child'|] eqn:Hc; [|discriminate].
      injection H as <-. simpl.
      rewrite entries_of_with_entries, (entry_app_new c child' _ E).
      apply (IH _ _ Hc).
Qed.

Lemma mkdir_parents_is_dir (f f' : FS) (p : Path) :
  mkdir_parents f p = Some f' -> is_dir f' p = true.
Proof.
  unfold mkdir_parents, is_dir, stat, abs_parts.
  destruct (mkdirs (Dir (tree f)) _) as [[]|] eqn:H; try discriminate.
  intros E. injection E as <-. simpl.
  destruct (mkdirs_is_dir _ _ _ H) as [m [es [-> Hm]]].
  now destruct m.
Qed.

(** Collision resolution, whatever the fuel: a free path, the candidate
    or a numbered one, and an unchanged world; or no answer. *)
Lemma get_unique_output_path_cases (fuel : nat) (p : Path) (w : World) :
  match get_unique_output_path fuel p w with
  | (Ok r, w') =>
      w' = w /\ exists_ (fs w) r = false /\
      (r = p \/ exists k, r = with_counter p k)
  | (OutOfFuel, w') => w' = w
  | _ => False
  end.
Proof.
  unfold get_unique_output_path, bind, path_exists.
  destruct (exists_ (fs w) p) eqn:E; simpl; [|auto].
  destruct (first_free_counter w (parent p) (stem p) (suffix p))
    as [k [Hk [Hfree Hbelow]]].
  destruct (Nat.lt_ge_cases (k - 1) fuel) as [Hlt|Hge].
  - rewrite (unique_loop_finds w (parent p) (stem p) (suffix p) (k - 1) fuel 1).
    + replace (1 + (k - 1)) with k by lia.
      repeat split; auto. right. now exists k.
    + intros j Hj. apply Hbelow. lia.
    + now replace (1 + (k - 1)) with k by lia.
    + exact Hlt.
  - rewrite (unique_loop_starved w (parent p) (stem p) (suffix p) fuel 1);
      [reflexivity|].
    intros j Hj. apply Hbelow. lia.
Qed.

Lemma name_joinname (p : Path) (nm : string) : name (joinname p nm) = nm.
Proof. unfold name, joinname. simpl. apply last_last. Qed.

(** What [get_output_path] does, by outcome. *)
Lemma get_output_path_cases (fuel : nat) (f b o : Path) (w : World) :
  match get_output_path fuel f b o w with
  | (Ok p, w') =>
      stdout w' = stdout w /\ kept (fs w) (fs w') /\
      exists_ (fs w') p = false /\ is_dir (fs w') (parent p) = true /\
      suffix p = ".md"
  | (Raise e, w') =>
      w' = w /\ ((name f = "" /\ e = ValueError "has an empty name") \/
                 exists q, e = OSError q)
  | (Exit _, _) => False
  | (OutOfFuel, w') => stdout w' = stdout w /\ kept (fs w) (fs w')
  end.
Proof.
  rewrite get_output_path_unfold.
  destruct (candidate_path f b o) as [c|] eqn:C.
  2:{ split; [reflexivity|]. left. split; [|reflexivity].
      now apply (candidate_path_None f b o). }
  destruct (candidate_path_shape f b o c C) as [dir [s [-> Hs]]].
  rewrite parent_joinname. unfold bind, path_mkdir.
  destruct (mkdir_parents (fs w) dir) as [f1|] eqn:M.
  2:{ split; [reflexivity|]. right. eauto. }
  pose proof (get_unique_output_path_cases fuel (joinname dir (s ++ ".md"))
                (mkWorld f1 (stdout w))) as U.
  destruct (get_unique_output_path fuel _ _) as [[r| | |] w1];
    try contradiction.
  - destruct U as [-> [Hfree Hr]]. cbn [fs stdout] in *.
    split; [reflexivity|]. split; [|split; [exact Hfree|split]].
    + now apply (mkdir_parents_kept _ _ dir).
    + destruct Hr as [->|[k ->]]; unfold with_counter;
        rewrite !parent_joinname; apply (mkdir_parents_is_dir (fs w) f1 dir M).
    + destruct (md_name s Hs) as [Hsuf Hstem].
      destruct Hr as [->|[k ->]]; unfold suffix, with_counter, stem, suffix.
      * now rewrite name_joinname.
      * rewrite !name_joinname.
        rewrite numbered_name_suffix; [exact Hsuf|].
        rewrite Hsuf. discriminate.
  - subst w1. cbn [fs stdout]. split; [reflexivity|].
    now apply (mkdir_parents_kept _ _ dir).
Qed.

(** ** The loop, by outcome *)

Lemma write_lookup (ps : list string) (text : string) :
  forall n n', write n ps text = Some n' ->
    lookup n' ps = Some (File text) \/
    (lookup n ps = Some Special /\ lookup n' ps = Some Special).
Proof.
  induction ps as [|c rest IH]; intros n n' H; simpl in H.
  - destruct n as [| | | |[]]; try discriminate; injection H as <-;
      simpl; auto.
  - simpl. destruct (entries_of n) as [es|] eqn:En; [|discriminate].
    destruct (entry c es) as [child|] eqn:E.
    + destruct (write child rest text) as [child'|] eqn:Hc; [|discriminate].
      injection H as <-. simpl.
      rewrite entries_of_with_entries, (entry_set_entry c child' _ _ E).
      apply (IH _ _ Hc).
    + destruct rest; [|discriminate].
      injection H as <-. simpl.
      rewrite entries_of_with_entries, (entry_app_new c (File text) _ E).
      now left.
Qed.

(** After a write where nothing existed, the path names a regular file
    that holds the text. *)
Lemma write_text_new_stat (f f' : FS) (p : Path) (text : string) :
  exists_ f p = false -> write_text f p text = Some f' ->
  stat f' p = Some (File text).
Proof.
  unfold exists_, write_text, stat, abs_parts.
  destruct (write (Dir (tree f)) _ text) as [[]|] eqn:H; try discriminate.
  intros Hfree E. injection E as <-. simpl.
  destruct (write_lookup _ text _ _ H) as [Hw|[Hs _]]; [exact Hw|].
  rewrite Hs in Hfree. discriminate.
Qed.

Lemma survives_exists (f f' : FS) (p : Path) :
  survives f f' -> exists_ f p = true -> exists_ f' p = true.
Proof.
  intros K. unfold exists_.
  destruct (stat f p) as [x|] eqn:E; [|discriminate].
  destruct (survives_stat f f' p x K E) as [x' [-> S]].
  destruct x, x'; simpl in S; try contradiction; auto; discriminate.
Qed.

Lemma kept_exists (f f' : FS) (p : Path) :
  kept f f' -> exists_ f p = true -> exists_ f' p = true.
Proof. intros K. now apply survives_exists, kept_survives. Qed.

Lemma progress_since_kept_stdout (w w' : World) (l : list Line) :
  stdout w' = stdout w ++ l -> forallb is_progress l = true ->
  progress_since w w'.
Proof. intros E P. now exists l. Qed.

Section Turns.

Variable docling : FS -> string -> Conversion.
Variables (fuel : nat) (input_base output_dir : Path) (total : nat).

(** [convert_file] by outcome: [True] after the text is written,
    [False] after one error record, the file system as it was or with
    the output opened, and so empty, for a text that cannot be
    encoded. *)
Lemma convert_file_cases (f o : Path) (w : World) :
  match convert_file docling f o w with
  | (Ok true, w') =>
      stdout w' = stdout w /\
      exists text, docling (fs w) (str f) = Markdown text /\
                   pystr.encodable text = true /\
                   write_text (fs w) o text = Some (fs w')
  | (Ok false, w') =>
      exists msg,
        stdout w' = stdout w ++ [conversion_error_line f msg] /\
        (fs w' = fs w \/
         exists text, docling (fs w) (str f) = Markdown text /\
                      pystr.encodable text = false /\
                      open_w (fs w) o = Some (fs w'))
  | _ => False
  end.
Proof.
  rewrite convert_file_run.
  destruct (docling (fs w) (str f)) as [text|msg];
    [|eexists; split; [reflexivity | now left]].
  destruct (write_text (fs w) o text) as [f'|] eqn:E;
    [|eexists; split; [reflexivity | now left]].
  destruct (pystr.encodable text) eqn:Enc.
  - simpl. split; [reflexivity|]. exists text. auto.
  - destruct (open_w (fs w) o) as [opened|] eqn:O;
      [|eexists; split; [reflexivity | now left]].
    eexists. split; [reflexivity|]. right. exists text. auto.
Qed.

Lemma convert_file_survives (f o : Path) (w : World) :
  exists_ (fs w) o = false ->
  survives (fs w) (fs (snd (convert_file docling f o w))).
Proof.
  intros Hfree. pose proof (convert_file_cases f o w) as Cv.
  destruct (convert_file docling f o w) as [[[]| | |] w']; try contradiction;
    simpl.
  - destruct Cv as [_ [text [_ [_ Hw]]]].
    now apply (write_text_new_survives _ _ o text).
  - destruct Cv as [msg [_ [->|[text [_ [_ Hw]]]]]]; [apply survives_refl|].
    now apply (write_text_new_survives _ _ o "").
Qed.

Lemma turns_lines_progress (idx : nat) (files : list Path)
    (rs : list ConversionResult) (lines : list Line) :
  turns total idx files rs lines -> forallb is_progress lines = true.
Proof. induction 1; simpl; auto. Qed.

(** The loop of [main] from any turn on, by outcome. *)
Lemma convert_each_cases (files : list Path) :
  forall idx t w,
    match convert_each docling fuel input_base output_dir total idx files t w with
    | (Ok t', w') =>
        exists rs lines,
          tally_results t' = tally_results t ++ rs /\
          stdout w' = stdout w ++ lines /\
          turns total idx files rs lines /\
          survives (fs w) (fs w') /\
          outputs_written (fs w) (fs w') rs
    | (Raise e, w') =>
        ((exists q, e = OSError q) \/ Exists (fun f => name f = "") files) /\
        survives (fs w) (fs w') /\ progress_since w w'
    | (Exit _, _) => False
    | (OutOfFuel, w') => survives (fs w) (fs w') /\ progress_since w w'
    end.
Proof.
  induction files as [|f rest IH]; intros idx t w.
  - simpl. exists [], []. rewrite !app_nil_r.
    repeat split; try reflexivity; try constructor.
    apply node_kept_survives, node_kept_refl.
  - cbn [convert_each]. unfold bind. rewrite loop_body_run.
    pose proof (get_output_path_cases fuel f input_base output_dir
                  (say w (converting_line idx total f))) as G.
    destruct (get_output_path fuel f input_base output_dir _)
      as [[o|e|c|] w1]; try contradiction.
    + destruct G as [Hout [K1 [Hfree [_ _]]]]. simpl in Hout, K1.
      apply kept_survives in K1.
      pose proof (convert_file_cases f o w1) as Cv.
      pose proof (convert_file_survives f o w1 Hfree) as K2.
      destruct (convert_file docling f o w1) as [[[]| | |] w2];
        try contradiction; simpl in K2.
      * destruct Cv as [Hout2 [text [_ [_ Hw]]]].
        assert (Hst : stat (fs w2) o = Some (File text))
          by (apply (write_text_new_stat _ _ o text Hfree Hw)).
        set (t1 := mkTally _ _ _).
        set (w3 := say w2 (converted_line idx total f)).
        specialize (IH (idx + 1) t1 w3).
        assert (E3 : stdout w3 =
                     stdout w ++ [converting_line idx total f;
                                  converted_line idx total f]).
        { unfold w3. simpl. rewrite Hout2, Hout, <- app_assoc. reflexivity. }
        assert (K3 : survives (fs w) (fs w3))
          by (apply (survives_trans _ _ _ K1 K2)).
        destruct (convert_each docling fuel input_base output_dir total
                    (idx + 1) rest t1 w3) as [[t'|e|c|] w'];
          try contradiction.
        -- destruct IH as [rs [lines [Hrs [Hl [Tr [K Ow]]]]]].
           exists (mkResult (str f) (str o) true :: rs),
             (converting_line idx total f :: converted_line idx total f :: lines).
           split; [rewrite Hrs; unfold t1; simpl; now rewrite <- app_assoc|].
           split; [rewrite Hl, E3, <- app_assoc; reflexivity|].
           split; [now constructor|].
           split; [apply (survives_trans _ _ _ K3 K)|].
           constructor.
           ++ intros _. simpl. exists o, text. repeat split.
              ** destruct (survives_stat _ _ o _ K Hst) as [[] [Hx S]];
                   simpl in S; try contradiction. now subst.
              ** destruct (exists_ (fs w) o) eqn:Ex; [|reflexivity].
                 apply (survives_exists _ _ o K1) in Ex. congruence.
           ++ eapply Forall_impl; [|exact Ow].
              intros r Hr Hsucc. destruct (Hr Hsucc) as [o' [tx [Ho [Hs Hn]]]].
              exists o', tx. repeat split; auto.
              destruct (exists_ (fs w) o') eqn:Ex; [|reflexivity].
              apply (survives_exists _ _ o' K3) in Ex. congruence.
        -- destruct IH as [He [K P]]. split; [|split].
           ++ destruct He; [now left | right; now constructor 2].
           ++ apply (survives_trans _ _ _ K3 K).
           ++ eapply progress_since_trans; [|exact P].
              now apply (progress_since_kept_stdout w w3 _ E3).
        -- destruct IH as [K P]. split.
           ++ apply (survives_trans _ _ _ K3 K).
           ++ eapply progress_since_trans; [|exact P].
              now apply (progress_since_kept_stdout w w3 _ E3).
      * destruct Cv as [msg [Hout2 _]].
        set (t1 := mkTally _ _ _).
        set (w3 := w2).
        specialize (IH (idx + 1) t1 w3).
        assert (E3 : stdout w3 =
                     stdout w ++ [converting_line idx total f;
                                  conversion_error_line f msg]).
        { unfold w3. rewrite Hout2, Hout. simpl. now rewrite <- app_assoc. }
        assert (K3 : survives (fs w) (fs w3))
          by (apply (survives_trans _ _ _ K1 K2)).
        destruct (convert_each docling fuel input_base output_dir total
                    (idx + 1) rest t1 w3) as [[t'|e|c|] w'];
          try contradiction.
        -- destruct IH as [rs [lines [Hrs [Hl [Tr [K Ow]]]]]].
           exists (mkResult (str f) "" false :: rs),
             (converting_line idx total f :: conversion_error_line f msg :: lines).
           split; [rewrite Hrs; unfold t1; simpl; now rewrite <- app_assoc|].
           split; [rewrite Hl, E3, <- app_assoc; reflexivity|].
           split; [now constructor|].
           split; [apply (survives_trans _ _ _ K3 K)|].
           constructor; [discriminate|].
           eapply Forall_impl; [|exact Ow].
           intros r Hr Hsucc. destruct (Hr Hsucc) as [o' [tx [Ho [Hs Hn]]]].
           exists o', tx. repeat split; auto.
           destruct (exists_ (fs w) o') eqn:Ex; [|reflexivity].
           apply (survives_exists _ _ o' K3) in Ex. congruence.
        -- destruct IH as [He [K P]]. split; [|split].
           ++ destruct He; [now left | right; now constructor 2].
           ++ apply (survives_trans _ _ _ K3 K).
           ++ eapply progress_since_trans; [|exact P].
              now apply (progress_since_kept_stdout w w3 _ E3).
        -- destruct IH as [K P]. split.
           ++ apply (survives_trans _ _ _ K3 K).
           ++ eapply progress_since_trans; [|exact P].
              now apply (progress_since_kept_stdout w w3 _ E3).
    + destruct G as [-> Hwhy]. split; [|split].
      * destruct Hwhy as [[Hn _]|Hq]; [right; now constructor | now left].
      * apply survives_refl.
      * apply progress_since_say.
    + destruct G as [Hout K1]. simpl in Hout, K1.
      split; [now apply kept_survives|].
      apply (progress_since_kept_stdout w w1 [converting_line idx total f]);
        [exact Hout | reflexivity].
Qed.

End Turns.

(** ** A run, by outcome *)

Lemma discovered_supported (f : FS) (input_paths : list string) :
  Forall (fun q => supported q = true)
    (flat_map (discovered_from f) input_paths).
Proof.
  apply Forall_forall. intros q Hq.
  apply in_flat_map in Hq as [input_path [_ Hq]].
  unfold discovered_from in Hq.
  destruct (is_file f (of_str input_path)).
  - destruct (supported (of_str input_path)) eqn:Hs; [|contradiction].
    now destruct Hq as [<-|[]].
  - destruct (is_dir f (of_str input_path)); [|contradiction].
    apply filter_In in Hq as [_ Hq]. now apply andb_true_iff in Hq.
Qed.

Lemma discovered_named (f : FS) (input_paths : list string) :
  ~ Exists (fun q => name q = "") (flat_map (discovered_from f) input_paths).
Proof.
  intros Hex. apply Exists_exists in Hex as [q [Hin Hname]].
  pose proof (discovered_supported f input_paths) as Hall.
  rewrite Forall_forall in Hall.
  now apply (supported_name q (Hall q Hin)).
Qed.

Lemma main_cases (docling : FS -> string -> Conversion) (fuel : nat)
    (inputs : list string) (output : string) (w : World) :
  match main docling fuel inputs output w with
  | (Ok _, w') =>
      exists f1 t lines,
        mkdir_parents (fs w) (of_str output) = Some f1 /\
        stdout w' =
          stdout w ++ [starting_line] ++ flat_map (reported_for f1) inputs
          ++ [ready_line (List.length (flat_map (discovered_from f1) inputs))]
          ++ lines
          ++ [Complete
                (summary_of
                   (List.length (flat_map (discovered_from f1) inputs)) t)] /\
        turns (List.length (flat_map (discovered_from f1) inputs)) 1
          (flat_map (discovered_from f1) inputs) (tally_results t) lines /\
        survives (fs w) (fs w') /\
        outputs_written (fs w) (fs w') (tally_results t)
  | (Raise e, w') =>
      (exists q, e = OSError q) /\ survives (fs w) (fs w') /\ progress_since w w'
  | (Exit c, w') =>
      c = 1 /\
      exists f1,
        mkdir_parents (fs w) (of_str output) = Some f1 /\
        flat_map (discovered_from f1) inputs = [] /\
        w' = mkWorld f1 (stdout w ++ [starting_line]
                         ++ flat_map (reported_for f1) inputs ++ [fatal_line])
  | (OutOfFuel, w') => survives (fs w) (fs w') /\ progress_since w w'
  end.
Proof.
  unfold main. rewrite main_with_run.
  destruct (mkdir_parents (fs w) (of_str output)) as [f1|] eqn:M.
  2:{ repeat split; eauto; try apply node_kept_survives, node_kept_refl.
      apply progress_since_refl. }
  pose proof (kept_survives _ _ (mkdir_parents_kept _ _ _ M)) as K0.
  pose proof (discovered_named f1 inputs) as Named.
  destruct (flat_map (discovered_from f1) inputs) as [|first rest] eqn:Efiles.
  - rewrite convert_batch_empty. split; [reflexivity|].
    exists f1. repeat split; auto. unfold say. simpl.
    now rewrite <- !app_assoc.
  - rewrite convert_batch_run. cbn zeta.
    set (w0 := mkWorld f1 _). set (n := List.length (first :: rest)).
    set (base := chosen_base (fs w0) inputs first).
    assert (P0 : progress_since w (say w0 (ready_line n))).
    { exists ([starting_line] ++ flat_map (reported_for f1) inputs
              ++ [ready_line n]). split.
      - unfold w0. simpl. now rewrite <- !app_assoc.
      - rewrite !forallb_app, reported_for_progress. reflexivity. }
    pose proof (convert_each_cases docling fuel base (of_str output) n
                  (first :: rest) 1 (mkTally 0 0 []) (say w0 (ready_line n)))
      as L.
    destruct (convert_each docling fuel base (of_str output) n 1
                (first :: rest) (mkTally 0 0 []) (say w0 (ready_line n)))
      as [[t|e|c|] w2]; try contradiction.
    + destruct L as [rs [lines [Hrs [Hl [Tr [K Ow]]]]]]. simpl in Hrs.
      exists f1, t, lines. rewrite Efiles, Hrs. subst n.
      split; [reflexivity|]. split; [|split; [exact Tr|split]].
      * unfold say. simpl. rewrite Hl. unfold w0. simpl.
        now rewrite <- !app_assoc.
      * apply (survives_trans _ _ _ K0 K).
      * eapply Forall_impl; [|exact Ow].
        intros r Hr Hs. destruct (Hr Hs) as [o [tx [Ho [Hst Hn]]]].
        exists o, tx. repeat split; auto.
        destruct (exists_ (fs w) o) eqn:Ex; [|reflexivity].
        apply (survives_exists _ _ o K0) in Ex. simpl in Hn. congruence.
    + destruct L as [He [K P]]. split; [|split].
      * destruct He as [He|He]; [exact He | contradiction].
      * apply (survives_trans _ _ _ K0 K).
      * apply (progress_since_trans _ _ _ P0 P).
    + destruct L as [K P]. split.
      * apply (survives_trans _ _ _ K0 K).
      * apply (progress_since_trans _ _ _ P0 P).
Qed.

(** ** Enough fuel *)

Lemma get_unique_output_path_enough (p : Path) (w : World) :
  exists n r, forall fuel, n <= fuel ->
    get_unique_output_path fuel p w = (Ok r, w).
Proof.
  unfold get_unique_output_path, bind, path_exists.
  destruct (exists_ (fs w) p) eqn:E; simpl.
  - destruct (first_free_counter w (parent p) (stem p) (suffix p))
      as [k [Hk [Hfree Hbelow]]].
    exists k, (with_counter p k). intros fuel Hfuel. unfold with_counter.
    replace k with (1 + (k - 1)) by lia.
    apply unique_loop_finds;
      [| now replace (1 + (k - 1)) with k by lia | lia].
    intros j Hj. apply Hbelow. lia.
  - exists 0, p. reflexivity.
Qed.

Lemma get_output_path_enough (f b o : Path) (w : World) :
  exists n r w', r <> OutOfFuel /\
    forall fuel, n <= fuel -> get_output_path fuel f b o w = (r, w').
Proof.
  destruct (candidate_path f b o) as [c|] eqn:C.
  - destruct (mkdir_parents (fs w) (parent c)) as [f1|] eqn:M.
    + destruct (get_unique_output_path_enough c (mkWorld f1 (stdout w)))
        as [n [r Hn]].
      exists n, (Ok r), (mkWorld f1 (stdout w)). split; [discriminate|].
      intros fuel Hfuel. rewrite get_output_path_unfold, C.
      unfold bind, path_mkdir. rewrite M. now apply Hn.
    + exists 0, (Raise (OSError (str (parent c)))), w. split; [discriminate|].
      intros fuel _. rewrite get_output_path_unfold, C.
      unfold bind, path_mkdir. now rewrite M.
  - exists 0, (Raise (ValueError "has an empty name")), w.
    split; [discriminate|].
    intros fuel _. now rewrite get_output_path_unfold, C.
Qed.

Section EnoughFuel.

Variable docling : FS -> string -> Conversion.
Variables (input_base output_dir : Path) (total : nat).

Lemma loop_body_enough (idx : nat) (f : Path) (t : Tally) (w : World) :
  exists n r w', r <> OutOfFuel /\
    forall fuel, n <= fuel ->
      loop_body docling fuel input_base output_dir total idx f t w = (r, w').
Proof.
  destruct (get_output_path_enough f input_base output_dir
              (say w (converting_line idx total f))) as [n [r [w1 [Hr Hn]]]].
  destruct r as [o|e|c|]; try contradiction.
  - pose proof (convert_file_cases docling f o w1) as Cv.
    destruct (convert_file docling f o w1) as [[[]| | |] w2] eqn:E;
      try contradiction.
    + eexists n, (Ok _), _. split; [discriminate|].
      intros fuel Hfuel. rewrite loop_body_run, (Hn fuel Hfuel), E. reflexivity.
    + eexists n, (Ok _), _. split; [discriminate|].
      intros fuel Hfuel. rewrite loop_body_run, (Hn fuel Hfuel), E. reflexivity.
  - exists n, (Raise e), w1. split; [discriminate|].
    intros fuel Hfuel. now rewrite loop_body_run, (Hn fuel Hfuel).
  - exists n, (Exit c), w1. split; [discriminate|].
    intros fuel Hfuel. now rewrite loop_body_run, (Hn fuel Hfuel).
Qed.

Lemma convert_each_enough (files : list Path) :
  forall idx t w,
    exists n r w', r <> OutOfFuel /\
      forall fuel, n <= fuel ->
        convert_each docling fuel input_base output_dir total idx files t w
        = (r, w').
Proof.
  induction files as [|f rest IH]; intros idx t w.
  - exists 0, (Ok t), w. split; [discriminate | reflexivity].
  - destruct (loop_body_enough idx f t w) as [n1 [r1 [w1 [Hr1 Hn1]]]].
    destruct r1 as [t1|e|c|]; try contradiction.
    + destruct (IH (idx + 1) t1 w1) as [n2 [r2 [w2 [Hr2 Hn2]]]].
      exists (Nat.max n1 n2), r2, w2. split; [exact Hr2|].
      intros fuel Hfuel. cbn [convert_each]. unfold bind.
      rewrite (Hn1 fuel ltac:(lia)). apply Hn2. lia.
    + exists n1, (Raise e), w1. split; [discriminate|].
      intros fuel Hfuel. cbn [convert_each]. unfold bind.
      now rewrite (Hn1 fuel Hfuel).
    + exists n1, (Exit c), w1. split; [discriminate|].
      intros fuel Hfuel. cbn [convert_each]. unfold bind.
      now rewrite (Hn1 fuel Hfuel).
Qed.

End EnoughFuel.

(** ** Further properties of converter.py *)

(** X1. A run that reaches the summary has printed, in this order: the
    ["starting"] record, what discovery reports, the ["ready"] record
    with the number of files, then for each discovered file, in
    discovery order and with [progress] counting 1, 2, ... of [total],
    its ["converting"] record followed by its ["converted"] record or
    by one ["error"] record, and last the summary, whose results match
    those records turn by turn. *)
Theorem main_prints_protocol (docling : FS -> string -> Conversion)
    (fuel : nat) (inputs : list string) (output : string) (w w' : World) :
  main docling fuel inputs output w = (Ok tt, w') ->
  exists f1 lines s,
    mkdir_parents (fs w) (of_str output) = Some f1 /\
    stdout w' =
      stdout w ++ [starting_line] ++ flat_map (reported_for f1) inputs
      ++ [ready_line (List.length (flat_map (discovered_from f1) inputs))]
      ++ lines ++ [Complete s] /\
    turns (List.length (flat_map (discovered_from f1) inputs)) 1
      (flat_map (discovered_from f1) inputs) (results s) lines.
Proof.
  intros H. pose proof (main_cases docling fuel inputs output w) as C.
  rewrite H in C. destruct C as [f1 [t [lines [M [Hout [Tr _]]]]]].
  exists f1, lines,
    (summary_of (List.length (flat_map (discovered_from f1) inputs)) t).
  auto.
Qed.

Lemma main_prints_protocol_witness :
  exists f1 lines s,
    mkdir_parents trio_fs (of_str "/out") = Some f1 /\
    stdout (snd (main picky_converter 1 ["/docs"] "/out" (mkWorld trio_fs [])))
    = [] ++ [starting_line] ++ flat_map (reported_for f1) ["/docs"]
      ++ [ready_line (List.length (flat_map (discovered_from f1) ["/docs"]))]
      ++ lines ++ [Complete s] /\
    turns (List.length (flat_map (discovered_from f1) ["/docs"])) 1
      (flat_map (discovered_from f1) ["/docs"]) (results s) lines.
Proof.
  apply (main_prints_protocol picky_converter 1 ["/docs"] "/out"
           (mkWorld trio_fs [])
           (snd (main picky_converter 1 ["/docs"] "/out" (mkWorld trio_fs [])))).
  reflexivity.
Defined.

(** X2. [main] leaves through [sys.exit] exactly when the output
    directory could be made and discovery found no file; the status is
    then 1 and the last record printed is the ["No supported files
    found"] error, after ["starting"] and what discovery reported. *)
Theorem main_exits_iff_no_file (docling : FS -> string -> Conversion)
    (fuel : nat) (inputs : list string) (output : string) (w w' : World)
    (code : nat) :
  main docling fuel inputs output w = (Exit code, w') <->
  code = 1 /\
  exists f1,
    mkdir_parents (fs w) (of_str output) = Some f1 /\
    flat_map (discovered_from f1) inputs = [] /\
    w' = mkWorld f1 (stdout w ++ [starting_line]
                     ++ flat_map (reported_for f1) inputs ++ [fatal_line]).
Proof.
  split.
  - intros H. pose proof (main_cases docling fuel inputs output w) as C.
    now rewrite H in C.
  - intros [-> [f1 [M [E ->]]]]. now apply main_empty_batch.
Qed.

(** X3. The only exception that leaves [main] is an [OSError]: a
    converter failure and a [ValueError] of pathlib never do.  When it
    leaves, progress records only have been printed, no summary. *)
Theorem main_raises_only_OSError (docling : FS -> string -> Conversion)
    (fuel : nat) (inputs : list string) (output : string) (w w' : World)
    (e : Exn) :
  main docling fuel inputs output w = (Raise e, w') ->
  (exists q, e = OSError q) /\
  exists printed,
    stdout w' = stdout w ++ printed /\ forallb is_progress printed = true.
Proof.
  intros H. pose proof (main_cases docling fuel inputs output w) as C.
  rewrite H in C. destruct C as [He [_ P]]. split; [exact He | exact P].
Qed.

Lemma main_raises_only_OSError_witness :
  (exists q, OSError "/out/x" = OSError q) /\
  exists printed,
    [starting_line; ready_line 1; converting_line 1 1 (of_str "/docs/x/y.pdf")]
    = [] ++ printed /\ forallb is_progress printed = true.
Proof.
  apply (main_raises_only_OSError echo_converter 0 ["/docs"] "/out"
           (mkWorld blocked_fs [])
           (mkWorld blocked_fs
              [starting_line; ready_line 1;
               converting_line 1 1 (of_str "/docs/x/y.pdf")])
           (OSError "/out/x")).
  reflexivity.
Defined.

(** X4. [main] terminates: for every converter, inputs, output directory
    and world there is an amount of fuel from which on the run has one
    and the same outcome, and that outcome is a summary, an exit or an
    exception, never a cut-off loop. *)
Theorem main_terminates (docling : FS -> string -> Conversion)
    (inputs : list string) (output : string) (w : World) :
  exists n r w', r <> OutOfFuel /\
    forall fuel, n <= fuel -> main docling fuel inputs output w = (r, w').
Proof.
  unfold main.
  destruct (mkdir_parents (fs w) (of_str output)) as [f1|] eqn:M.
  2:{ exists 0, (Raise (OSError (str (of_str output)))), w.
      split; [discriminate|]. intros fuel _. now rewrite main_with_run, M. }
  destruct (flat_map (discovered_from f1) inputs) as [|first rest] eqn:E.
  - eexists 0, (Exit 1), _. split; [discriminate|].
    intros fuel _. rewrite main_with_run, M, E. apply convert_batch_empty.
  - set (w0 := mkWorld f1 ((stdout w ++ [starting_line])
                           ++ flat_map (reported_for f1) inputs)).
    destruct (convert_each_enough docling (chosen_base (fs w0) inputs first)
                (of_str output) (List.length (first :: rest)) (first :: rest)
                1 (mkTally 0 0 [])
                (say w0 (ready_line (List.length (first :: rest)))))
      as [n [r [w2 [Hr Hn]]]].
    destruct r as [t|e|c|]; try contradiction.
    + eexists n, (Ok tt), _. split; [discriminate|].
      intros fuel Hfuel. rewrite main_with_run, M, E, convert_batch_run.
      cbn zeta. fold w0. rewrite (Hn fuel Hfuel). reflexivity.
    + exists n, (Raise e), w2. split; [discriminate|].
      intros fuel Hfuel. rewrite main_with_run, M, E, convert_batch_run.
      cbn zeta. fold w0. now rewrite (Hn fuel Hfuel).
    + exists n, (Exit c), w2. split; [discriminate|].
      intros fuel Hfuel. rewrite main_with_run, M, E, convert_batch_run.
      cbn zeta. fold w0. now rewrite (Hn fuel Hfuel).
Qed.

(** X5. A run of [main] removes and overwrites nothing: whatever its
    outcome, every path that named something before names something
    after.  A regular file is a regular file with the content it had,
    a directory a directory, a linked directory a linked directory, a
    device a device.  A link to nothing is still an entry, whatever it
    now leads to: the run writes an output through such a link when the
    target can be created. *)
Theorem main_keeps_what_exists (docling : FS -> string -> Conversion)
    (fuel : nat) (inputs : list string) (output : string) (w : World)
    (p : Path) (x : Node) :
  stat (fs w) p = Some x ->
  exists x',
    stat (fs (snd (main docling fuel inputs output w))) p = Some x' /\
    match x with
    | Dangling _ => True
    | _ => same_kind x x'
    end.
Proof.
  apply survives_stat.
  pose proof (main_cases docling fuel inputs output w) as C.
  destruct (main docling fuel inputs output w) as [[u|e|c|] w']; simpl.
  - now destruct C as [f1 [t [lines [_ [_ [_ [K _]]]]]]].
  - now destruct C as [_ [K _]].
  - destruct C as [_ [f1 [M [_ ->]]]]. simpl.
    now apply kept_survives, (mkdir_parents_kept _ _ (of_str output)).
  - now destruct C as [K _].
Qed.

(** A second run keeps the [/out/a.md] of the first. *)
Lemma main_keeps_what_exists_witness :
  exists x',
    stat (fs (snd (main echo_converter 1 ["/docs/a.pdf"] "/out"
                     (mkWorld rerun_fs [])))) (of_str "/out/a.md") = Some x' /\
    same_kind (File "old") x'.
Proof.
  apply (main_keeps_what_exists echo_converter 1 ["/docs/a.pdf"] "/out"
           (mkWorld rerun_fs []) (of_str "/out/a.md") (File "old")).
  reflexivity.
Defined.

(** Where [/out/a.md] is a link to nothing whose target can be made, the
    output is written through the link; [keep.md] beside it is as it
    was. *)
Example main_writes_through_link :
  fs (snd (main echo_converter 1 ["/docs/a.pdf"] "/out"
             (mkWorld link_out_fs []))) =
  mkFS [("docs", Dir [("a.pdf", File "%PDF")]);
        ("out", Dir [("a.md", File "# /docs/a.pdf");
                     ("keep.md", File "kept")])] [].
Proof. reflexivity. Qed.

(** X6. A path returned by [get_output_path] does not exist, its
    directory does, and its suffix is [.md]; resolving it has printed
    nothing and has kept all that was in the file system. *)
Theorem get_output_path_postcondition (fuel : nat)
    (input_file input_base output_dir : Path) (w w' : World) (p : Path) :
  get_output_path fuel input_file input_base output_dir w = (Ok p, w') ->
  exists_ (fs w') p = false /\
  is_dir (fs w') (parent p) = true /\
  suffix p = ".md" /\
  stdout w' = stdout w /\
  kept (fs w) (fs w').
Proof.
  intros H.
  pose proof (get_output_path_cases fuel input_file input_base output_dir w) as C.
  rewrite H in C. tauto.
Qed.

Lemma get_output_path_postcondition_witness :
  exists_ (mkFS [("docs", Dir [("x", Dir [("y.pdf", File "%PDF")])]);
                 ("out", Dir [("x", Dir [])])] []) (of_str "/out/x/y.md")
  = false /\
  is_dir (mkFS [("docs", Dir [("x", Dir [("y.pdf", File "%PDF")])]);
                ("out", Dir [("x", Dir [])])] []) (parent (of_str "/out/x/y.md"))
  = true /\
  suffix (of_str "/out/x/y.md") = ".md" /\
  @nil Line = [] /\
  kept docs_fs (mkFS [("docs", Dir [("x", Dir [("y.pdf", File "%PDF")])]);
                      ("out", Dir [("x", Dir [])])] []).
Proof.
  apply (get_output_path_postcondition 0 (of_str "/docs/x/y.pdf")
           (of_str "/docs") (of_str "/out") (mkWorld docs_fs [])
           (mkWorld (mkFS [("docs", Dir [("x", Dir [("y.pdf", File "%PDF")])]);
                           ("out", Dir [("x", Dir [])])] []) [])
           (of_str "/out/x/y.md")).
  reflexivity.
Defined.

(** X7. When a run reaches the summary, every result marked successful
    names, in [output], a regular file that is there at the end of the
    run and was not there at its start. *)
Theorem main_outputs_written (docling : FS -> string -> Conversion)
    (fuel : nat) (inputs : list string) (out : string) (w w' : World) :
  main docling fuel inputs out w = (Ok tt, w') ->
  exists s,
    last (stdout w') (Progress (mkStatus "" "" "" 0 0 "")) = Complete s /\
    Forall (fun r => success r = true ->
              exists o text, output r = str o /\
                             stat (fs w') o = Some (File text) /\
                             exists_ (fs w) o = false) (results s).
Proof.
  intros H. pose proof (main_cases docling fuel inputs out w) as C.
  rewrite H in C. destruct C as [f1 [t [lines [_ [Hout [_ [_ Ow]]]]]]].
  exists (summary_of (List.length (flat_map (discovered_from f1) inputs)) t).
  split; [|exact Ow].
  rewrite Hout, !app_assoc. apply last_last.
Qed.

Lemma main_outputs_written_witness :
  exists s,
    last (stdout (snd (main picky_converter 1 ["/docs"] "/out"
                         (mkWorld trio_fs []))))
      (Progress (mkStatus "" "" "" 0 0 "")) = Complete s /\
    Forall (fun r => success r = true ->
              exists o text, output r = str o /\
                stat (fs (snd (main picky_converter 1 ["/docs"] "/out"
                                 (mkWorld trio_fs [])))) o = Some (File text) /\
                exists_ trio_fs o = false) (results s).
Proof.
  apply (main_outputs_written picky_converter 1 ["/docs"] "/out"
           (mkWorld trio_fs [])
           (snd (main picky_converter 1 ["/docs"] "/out" (mkWorld trio_fs [])))).
  reflexivity.
Defined.


(** X9. Discovery goes through its inputs one after the other:
    collecting from [a ++ b] is collecting from [a], then from [b],
    the files of [b] after those of [a].  Nothing is deduplicated. *)
Theorem collect_files_app (a b : list string) (w : World) :
  exists fa wa fb wb,
    collect_files a w = (Ok fa, wa) /\
    collect_files b wa = (Ok fb, wb) /\
    collect_files (a ++ b) w = (Ok (fa ++ fb), wb).
Proof.
  rewrite !collect_files_run. eexists _, _, _, _.
  split; [reflexivity|]. rewrite collect_files_run. split; [reflexivity|].
  simpl. now rewrite !flat_map_app, app_assoc.
Qed.

(** X10. Collision resolution stays in the directory of the candidate,
    keeps a suffix the candidate has, and changes nothing in the
    world. *)
Theorem get_unique_output_path_same_directory (fuel : nat)
    (output_path r : Path) (w w' : World) :
  get_unique_output_path fuel output_path w = (Ok r, w') ->
  w' = w /\
  parent r = parent output_path /\
  (suffix output_path <> "" -> suffix r = suffix output_path).
Proof.
  intros H. pose proof (get_unique_output_path_cases fuel output_path w) as C.
  rewrite H in C. destruct C as [-> [_ [->|[k ->]]]].
  - auto.
  - split; [reflexivity|]. unfold with_counter. split.
    + now rewrite parent_joinname.
    + intros Hs. unfold suffix at 1. rewrite name_joinname.
      now apply numbered_name_suffix.
Qed.

Lemma get_unique_output_path_same_directory_witness :
  mkWorld taken_fs [] = mkWorld taken_fs [] /\
  parent (of_str "/out/a_2.md") = parent (of_str "/out/a.md") /\
  (suffix (of_str "/out/a.md") <> "" ->
   suffix (of_str "/out/a_2.md") = suffix (of_str "/out/a.md")).
Proof.
  apply (get_unique_output_path_same_directory 3 (of_str "/out/a.md")
           (of_str "/out/a_2.md") (mkWorld taken_fs []) (mkWorld taken_fs [])).
  reflexivity.
Defined.

Lemma walk_nonempty (n : Node) (rel : list string) :
  In rel (walk n) -> rel <> [].
Proof.
  destruct (entries_of n) as [es|] eqn:En; [|now destruct n].
  rewrite (walk_entries n es En).
  intros H. apply in_app_or in H as [H|H].
  - apply in_map_iff in H as [e [<- _]]. discriminate.
  - apply in_flat_map in H as [[nm child] [_ H]].
    destruct child; try contradiction.
    apply in_map_iff in H as [r [<- _]]. discriminate.
Qed.

Lemma distinct_entry (c : string) (child : Node) (es : list (string * Node)) :
  distinct (map fst es) = true -> In (c, child) es -> entry c es = Some child.
Proof.
  induction es as [|[k v] es IH]; simpl; [contradiction|].
  intros Hd Hin. apply andb_true_iff in Hd as [Hk Hd].
  destruct Hin as [Heq|Hin].
  - injection Heq as -> ->. now rewrite String.eqb_refl.
  - destruct (String.eqb_spec k c) as [->|Hne]; [|now apply IH].
    exfalso. apply negb_true_iff in Hk.
    assert (Hex : existsb (String.eqb c) (map fst es) = true).
    { apply existsb_exists. exists c. split; [|apply String.eqb_refl].
      apply in_map_iff. now exists (c, child). }
    congruence.
Qed.

(** What the walk yields lies behind directories alone. *)
Lemma walk_through_directories (rel : list string) :
  forall n, unique_names n = true -> In rel (walk n) ->
    through_directories n rel.
Proof.
  induction rel as [|c rest IH]; intros n Hu Hin.
  - now apply walk_nonempty in Hin.
  - destruct (entries_of n) as [es|] eqn:En; [|now destruct n].
    assert (Hes : distinct (map fst es) = true /\
                  forallb (fun e => let '(_, child) := e in unique_names child)
                    es = true).
    { destruct n; try discriminate; injection En as <-;
        now apply andb_true_iff in Hu. }
    destruct Hes as [Hd Hall].
    rewrite (walk_entries n es En) in Hin. apply in_app_or in Hin as [H|H].
    + apply in_map_iff in H as [e [H _]]. injection H as _ <-.
      intros pre post Hrel Hpre Hpost. exfalso.
      destruct pre as [|a [|b pre]]; [contradiction| |discriminate].
      destruct post; [contradiction | discriminate].
    + apply in_flat_map in H as [[nm child] [Hin H]].
      destruct child as [|es'| | |]; try contradiction.
      apply in_map_iff in H as [r [H Hr]]. injection H as -> ->.
      assert (Hc : entry c es = Some (Dir es')) by now apply distinct_entry.
      assert (Hu' : unique_names (Dir es') = true).
      { rewrite forallb_forall in Hall. apply (Hall (c, Dir es') Hin). }
      specialize (IH (Dir es') Hu' Hr).
      intros pre post Hrel Hpre Hpost.
      destruct pre as [|a pre]; [contradiction|].
      injection Hrel as <- Hrest.
      destruct pre as [|b pre].
      * exists es'. simpl. now rewrite En, Hc.
      * destruct (IH (b :: pre) post Hrest) as [es1 H1];
          [discriminate | exact Hpost |].
        exists es1. cbn [lookup]. rewrite En, Hc. exact H1.
Qed.

(** X11. With a single directory as input, the base path is that
    directory and every discovered file lies below it, so that each
    output path keeps the file's subdirectories: the fallback to the
    bare file name is not used. *)
Theorem directory_input_keeps_structure (f : FS) (dir : string)
    (q first output_dir : Path) :
  is_dir f (of_str dir) = true ->
  In q (discovered_from f dir) ->
  chosen_base f [dir] first = of_str dir /\
  exists sub nm,
    descends q (of_str dir) sub nm /\
    candidate_path q (of_str dir) output_dir =
    Some (joinname (mkPath (root output_dir) (parts output_dir ++ sub))
            (stem_of_name nm ++ ".md")).
Proof.
  intros Hdir Hin. split; [unfold chosen_base; now rewrite Hdir|].
  unfold discovered_from in Hin.
  assert (Hnf : is_file f (of_str dir) = false).
  { unfold is_dir, is_file in *. now destruct (stat f (of_str dir)) as [[]|]. }
  rewrite Hnf, Hdir in Hin. apply filter_In in Hin as [Hin Hsup].
  apply andb_true_iff in Hsup as [_ Hsup].
  unfold rglob in Hin. destruct (stat f (of_str dir)) as [n|]; [|contradiction].
  apply in_map_iff in Hin as [rel [<- Hrel]].
  apply walk_nonempty in Hrel.
  destruct (@exists_last _ rel Hrel) as [sub [nm ->]].
  assert (Hd : descends (mkPath (root (of_str dir))
                           (parts (of_str dir) ++ sub ++ [nm]))
                 (of_str dir) sub nm) by (split; reflexivity).
  exists sub, nm. split; [exact Hd|].
  apply candidate_path_descendant; [exact Hd|].
  apply supported_name in Hsup. unfold name in Hsup. simpl in Hsup.
  now rewrite app_assoc, last_last in Hsup.
Qed.

Lemma directory_input_keeps_structure_witness :
  chosen_base mixed_fs ["/docs"] (of_str "/docs/a.pdf") = of_str "/docs" /\
  exists sub nm,
    descends (of_str "/docs/sub/b.docx") (of_str "/docs") sub nm /\
    candidate_path (of_str "/docs/sub/b.docx") (of_str "/docs") (of_str "/out") =
    Some (joinname (mkPath (root (of_str "/out"))
                      (parts (of_str "/out") ++ sub))
            (stem_of_name nm ++ ".md")).
Proof.
  apply (directory_input_keeps_structure mixed_fs "/docs"
           (of_str "/docs/sub/b.docx") (of_str "/docs/a.pdf") (of_str "/out")).
  - reflexivity.
  - right. left. reflexivity.
Defined.

(** X12. What discovery takes from a directory input: exactly the
    paths below the directory, at any depth, that name a regular file
    with a supported extension and are not behind a linked directory.
    The input may itself be a link to a directory, and a link to a
    regular file is taken like the file; what lies behind a link to a
    directory further down is not looked at. *)
Theorem directory_discovery_exact (f : FS) (dir : string) (n : Node)
    (q : Path) :
  is_dir f (of_str dir) = true ->
  stat f (of_str dir) = Some n -> unique_names n = true ->
  (In q (discovered_from f dir) <->
   exists rel,
     rel <> [] /\
     q = mkPath (root (of_str dir)) (parts (of_str dir) ++ rel) /\
     is_file f q = true /\ supported q = true /\
     through_directories n rel).
Proof.
  intros Hdir Hn Hu.
  assert (Hnf : is_file f (of_str dir) = false).
  { unfold is_dir, is_file in *. now destruct (stat f (of_str dir)) as [[]|]. }
  unfold discovered_from. rewrite Hnf, Hdir. rewrite filter_In. split.
  - intros [Hin Hq]. apply andb_true_iff in Hq as [Hf Hs].
    unfold rglob in Hin. rewrite Hn in Hin.
    apply in_map_iff in Hin as [rel [<- Hrel]].
    exists rel. repeat split; auto.
    + now apply (walk_nonempty n).
    + now apply walk_through_directories.
  - intros [rel [Hne [-> [Hf [Hs Hdirs]]]]]. split.
    + apply (rglob_complete _ _ _ n); [exact Hne | exact Hn | exact Hdirs |].
      unfold lexists, is_file in *.
      now destruct (stat f (mkPath (root (of_str dir))
                              (parts (of_str dir) ++ rel))).
    + now rewrite Hf, Hs.
Qed.

(** In [linked_fs], [/docs/real/d.pdf] is discovered, and
    [/docs/link/b.pdf], behind a linked directory, is not. *)
Lemma directory_discovery_exact_witness :
  (In (of_str "/docs/real/d.pdf") (discovered_from linked_fs "/docs") <->
   exists rel,
     rel <> [] /\
     of_str "/docs/real/d.pdf" =
       mkPath (root (of_str "/docs")) (parts (of_str "/docs") ++ rel) /\
     is_file linked_fs (of_str "/docs/real/d.pdf") = true /\
     supported (of_str "/docs/real/d.pdf") = true /\
     through_directories
       (Dir [("a.pdf", File "%PDF");
             ("link", DirLink [("b.pdf", File "%PDF")]);
             ("c.pdf", File "%PDF");
             ("real", Dir [("d.pdf", File "%PDF")])]) rel) /\
  (In (of_str "/docs/link/b.pdf") (discovered_from linked_fs "/docs") <->
   exists rel,
     rel <> [] /\
     of_str "/docs/link/b.pdf" =
       mkPath (root (of_str "/docs")) (parts (of_str "/docs") ++ rel) /\
     is_file linked_fs (of_str "/docs/link/b.pdf") = true /\
     supported (of_str "/docs/link/b.pdf") = true /\
     through_directories
       (Dir [("a.pdf", File "%PDF");
             ("link", DirLink [("b.pdf", File "%PDF")]);
             ("c.pdf", File "%PDF");
             ("real", Dir [("d.pdf", File "%PDF")])]) rel).
Proof.
  split.
  - apply (directory_discovery_exact linked_fs "/docs" _
             (of_str "/docs/real/d.pdf")); reflexivity.
  - apply (directory_discovery_exact linked_fs "/docs" _
             (of_str "/docs/link/b.pdf")); reflexivity.
Defined.

(** The files discovered in [linked_fs]: the link to a file is taken,
    what is behind the linked directory is not. *)
Example linked_discovery :
  collect_files ["/docs"] (mkWorld linked_fs []) =
  (Ok [of_str "/docs/a.pdf"; of_str "/docs/c.pdf"; of_str "/docs/real/d.pdf"],
   mkWorld linked_fs []) /\
  is_file linked_fs (of_str "/docs/link/b.pdf") = true.
Proof. split; reflexivity. Qed.

(** ** Progress counts *)

Lemma turns_within_total (n idx : nat) (files : list Path)
    (rs : list ConversionResult) (lines : list Line) :
  turns n idx files rs lines ->
  idx + List.length files <= n + 1 ->
  forallb within_total lines = true.
Proof.
  induction 1 as [idx|idx f o files rs lines T IH|idx f msg files rs lines T IH];
    intros Hlen; simpl in *.
  - reflexivity.
  - rewrite IH by lia.
    replace (Nat.leb idx n) with true by (symmetry; apply Nat.leb_le; lia).
    reflexivity.
  - rewrite IH by lia.
    replace (Nat.leb idx n) with true by (symmetry; apply Nat.leb_le; lia).
    reflexivity.
Qed.

Lemma reported_for_within_total (f : FS) (input_paths : list string) :
  forallb within_total (flat_map (reported_for f) input_paths) = true.
Proof.
  induction input_paths as [|i rest IH]; simpl; [reflexivity|].
  rewrite forallb_app, IH, andb_true_r. unfold reported_for.
  destruct (is_file f (of_str i)); [now destruct (supported (of_str i))|].
  now destruct (is_dir f (of_str i)).
Qed.

Lemma counts_of_app (s : string) (a b : list Line) :
  counts_of s (a ++ b) = counts_of s a ++ counts_of s b.
Proof. unfold counts_of. apply flat_map_app. Qed.

Lemma counts_of_other (s : string) (r : StatusRecord) :
  status r <> s -> counts_of s [Progress r] = [].
Proof.
  intros H. unfold counts_of. cbn [flat_map].
  now destruct (String.eqb_spec (status r) s).
Qed.

Lemma reported_for_counts (s : string) (f : FS) (input_paths : list string) :
  s <> "warning" -> s <> "error" ->
  counts_of s (flat_map (reported_for f) input_paths) = [].
Proof.
  intros Hw He.
  induction input_paths as [|i rest IH]; [reflexivity|].
  cbn [flat_map]. rewrite counts_of_app, IH, app_nil_r. unfold reported_for.
  destruct (is_file f (of_str i)).
  - destruct (supported (of_str i)); [reflexivity|].
    apply counts_of_other. cbn. congruence.
  - destruct (is_dir f (of_str i)); [reflexivity|].
    apply counts_of_other. cbn. congruence.
Qed.

(** The turns count from [idx] on, one by one. *)
Lemma turns_counts (n idx : nat) (files : list Path)
    (rs : list ConversionResult) (lines : list Line) :
  turns n idx files rs lines ->
  List.length rs = List.length files /\
  counts_of "converting" lines =
    map (fun i => (i, n)) (seq idx (List.length files)) /\
  counts_of "converted" lines = successful_turns n idx rs.
Proof.
  unfold successful_turns.
  induction 1 as [idx|idx f o files rs lines T [IHl [IH1 IH2]]
                 |idx f msg files rs lines T [IHl [IH1 IH2]]];
    simpl in *.
  - auto.
  - rewrite Nat.add_1_r in *. rewrite IH1, IH2, IHl. auto.
  - rewrite Nat.add_1_r in *. rewrite IH1, IH2, IHl. auto.
Qed.

(** X17. In a run that reaches the summary the ["converting"] records
    carry, in the order printed, the progress 1, 2, ... up to the
    number of discovered files, which is the total of each; the
    ["converted"] records carry the progress of the turns that the
    summary marks successful, in the same order; and no status record
    printed counts past its total. *)
Theorem main_progress_within_total (docling : FS -> string -> Conversion)
    (fuel : nat) (inputs : list string) (out : string) (w w' : World) :
  main docling fuel inputs out w = (Ok tt, w') ->
  exists f1 printed s,
    mkdir_parents (fs w) (of_str out) = Some f1 /\
    stdout w' = stdout w ++ printed ++ [Complete s] /\
    forallb within_total printed = true /\
    let n := List.length (flat_map (discovered_from f1) inputs) in
    List.length (results s) = n /\
    counts_of "converting" printed = map (fun i => (i, n)) (seq 1 n) /\
    counts_of "converted" printed = successful_turns n 1 (results s).
Proof.
  intros H. pose proof (main_cases docling fuel inputs out w) as C.
  rewrite H in C. destruct C as [f1 [t [lines [M [Hout [Tr _]]]]]].
  set (n := List.length (flat_map (discovered_from f1) inputs)) in *.
  exists f1,
    ([starting_line] ++ flat_map (reported_for f1) inputs ++ [ready_line n]
     ++ lines), (summary_of n t).
  split; [exact M|]. split; [now rewrite Hout, <- !app_assoc|].
  split.
  { rewrite !forallb_app, reported_for_within_total.
    rewrite (turns_within_total _ _ _ _ _ Tr) by (fold n; lia).
    reflexivity. }
  destruct (turns_counts _ _ _ _ _ Tr) as [Hl [Hc1 Hc2]]. fold n in Hl, Hc1.
  cbn zeta. split; [exact Hl|].
  rewrite !counts_of_app, !reported_for_counts by discriminate.
  simpl. now rewrite Hc1, Hc2.
Qed.

Lemma main_progress_within_total_witness :
  exists f1 printed s,
    mkdir_parents trio_fs (of_str "/out") = Some f1 /\
    stdout (snd (main picky_converter 1 ["/docs"] "/out" (mkWorld trio_fs [])))
    = [] ++ printed ++ [Complete s] /\
    forallb within_total printed = true /\
    let n := List.length (flat_map (discovered_from f1) ["/docs"]) in
    List.length (results s) = n /\
    counts_of "converting" printed = map (fun i => (i, n)) (seq 1 n) /\
    counts_of "converted" printed = successful_turns n 1 (results s).
Proof.
  apply (main_progress_within_total picky_converter 1 ["/docs"] "/out"
           (mkWorld trio_fs [])
           (snd (main picky_converter 1 ["/docs"] "/out" (mkWorld trio_fs [])))).
  reflexivity.
Defined.

(** In the run of the witness the second file fails: the counts are
    1, 2, 3 of 3 for ["converting"] and 1, 3 of 3 for ["converted"]. *)
Example trio_counts :
  let printed :=
    stdout (snd (main picky_converter 1 ["/docs"] "/out" (mkWorld trio_fs [])))
  in
  counts_of "converting" printed = [(1, 3); (2, 3); (3, 3)] /\
  counts_of "converted" printed = [(1, 3); (3, 3)].
Proof. split; reflexivity. Qed.

(** ** The window *)

Lemma rfind_app (c : ascii) (a b : string) :
  pystr.rfind c (a ++ b) =
  match pystr.rfind c b with
  | Some i => Some (String.length a + i)
  | None => pystr.rfind c a
  end.
Proof.
  induction a as [|x a IH]; simpl.
  - now destruct (pystr.rfind c b).
  - rewrite IH. now destruct (pystr.rfind c b).
Qed.

Lemma rfind_split (c : ascii) (s : string) :
  forall i, pystr.rfind c s = Some i ->
    exists a b, s = (a ++ String c b)%string /\ String.length a = i /\
                pystr.rfind c b = None.
Proof.
  induction s as [|x s IH]; intros i H; simpl in H; [discriminate|].
  destruct (pystr.rfind c s) as [j|] eqn:E.
  - injection H as <-. destruct (IH j eq_refl) as [a [b [-> [Ha Hb]]]].
    exists (String x a), b. simpl. repeat split; auto.
  - destruct (Ascii.eqb_spec x c) as [->|]; [|discriminate].
    injection H as <-. exists "", s. simpl. repeat split; auto.
Qed.

Lemma rfind_app_None_l (c : ascii) (a b : string) :
  pystr.rfind c (a ++ b) = None -> pystr.rfind c a = None.
Proof. rewrite rfind_app. now destruct (pystr.rfind c b). Qed.

Lemma rfind_last (c : ascii) (a b : string) :
  pystr.rfind c b = None ->
  pystr.rfind c (a ++ String c b) = Some (String.length a).
Proof.
  intros Hb. rewrite rfind_app. simpl. rewrite Hb, Ascii.eqb_refl.
  f_equal. lia.
Qed.

(** What follows the last slash has no slash. *)
Lemma basename_no_sep (p : string) :
  pystr.rfind "/" (ospath.basename p) = None.
Proof.
  unfold ospath.basename.
  destruct (pystr.rfind "/" p) as [i|] eqn:E; [|exact E].
  destruct (rfind_split "/" p i E) as [a [b [-> [<- Hb]]]].
  replace (a ++ String "/" b)%string with ((a ++ "/") ++ b)%string
    by (now rewrite append_assoc).
  rewrite !append_length. simpl String.length.
  replace (String.length a + 1 + String.length b - (String.length a + 1))
    with (String.length b) by lia.
  replace (String.length a + 1) with (String.length (a ++ "/"))
    by (rewrite append_length; reflexivity).
  now rewrite substring_suffix.
Qed.

Lemma basename_of_join (dir nm : string) :
  pystr.rfind "/" nm = None ->
  ospath.basename (dir ++ String "/" nm) = nm.
Proof.
  intros Hnm. unfold ospath.basename. rewrite (rfind_last "/" dir nm Hnm).
  replace (dir ++ String "/" nm)%string with ((dir ++ "/") ++ nm)%string
    by (now rewrite append_assoc).
  rewrite !append_length. simpl String.length.
  replace (String.length dir + 1 + String.length nm - (String.length dir + 1))
    with (String.length nm) by lia.
  replace (String.length dir + 1) with (String.length (dir ++ "/"))
    by (rewrite append_length; reflexivity).
  apply substring_suffix.
Qed.

Lemma splitext_root_prefix (b : string) :
  exists rest, b = (fst (ospath.splitext b) ++ rest)%string.
Proof.
  unfold ospath.splitext.
  destruct (pystr.rfind "." b) as [dot|] eqn:E.
  - destruct (Nat.leb _ dot && ospath.has_non_dot _); simpl.
    + exists (substring dot (String.length b - dot) b).
      symmetry. apply substring_split.
      destruct (rfind_split "." b dot E) as [a [r [-> [<- _]]]].
      rewrite append_length. lia.
    + exists "". clear. induction b; simpl; [reflexivity | now f_equal].
  - exists "". clear. induction b; simpl; [reflexivity | now f_equal].
Qed.

(** X14. The file name the save dialog proposes never holds a directory:
    it has no slash.  For an input [dir/name.ext], where [name] has a
    character other than a dot and [ext] has no dot, it is [name.md]:
    the input's file name with its last extension replaced. *)
Theorem initialfile_is_a_name (input_path : string) :
  pystr.rfind "/" (window.initialfile input_path) = None /\
  forall dir nm ext,
    input_path = (dir ++ String "/" (nm ++ String "." ext))%string ->
    pystr.rfind "/" nm = None -> pystr.rfind "/" ext = None ->
    pystr.rfind "." ext = None -> ospath.has_non_dot nm = true ->
    window.initialfile input_path = (nm ++ ".md")%string.
Proof.
  split.
  - unfold window.initialfile.
    pose proof (basename_no_sep input_path) as Hb.
    destruct (splitext_root_prefix (ospath.basename input_path)) as [rest Hr].
    rewrite Hr in Hb. apply rfind_app_None_l in Hb.
    rewrite rfind_app. simpl. exact Hb.
  - intros dir nm ext -> Hnm Hext Hdot Hnd.
    unfold window.initialfile. f_equal.
    rewrite basename_of_join.
    2:{ rewrite rfind_app. simpl. now rewrite Hext. }
    unfold ospath.splitext.
    rewrite (rfind_last "." nm ext Hdot).
    assert (Hsep : pystr.rfind "/" (nm ++ String "." ext) = None).
    { rewrite rfind_app. simpl. now rewrite Hext. }
    rewrite Hsep. simpl Nat.leb. rewrite Nat.sub_0_r.
    rewrite (substring_prefix nm (String "." ext)), Hnd. reflexivity.
Qed.

Lemma initialfile_is_a_name_witness :
  window.initialfile "/home/me/docs/report.v2.pdf" = "report.v2.md".
Proof.
  apply (proj2 (initialfile_is_a_name "/home/me/docs/report.v2.pdf")
           "/home/me/docs" "report.v2" "pdf");
    reflexivity.
Defined.

(** X15. [convert_file] starts a conversion thread only for a selected
    path that exists and a destination the user has chosen, and then
    for exactly that pair: it has asked for the destination, proposing
    [initialfile], it disables the Convert button, starts the progress
    bar and sets the status to ["Converting... Please wait"].  With no
    path selected or a path that does not exist it shows one message
    box, asks for no destination and leaves the window as it was; so
    does a cancelled save dialog, without the message box. *)
Theorem convert_file_guards (path_exists : string -> bool)
    (output_path : string) (app : window.App) :
  let (app', calls) := window.convert_file path_exists output_path app in
  (forall i o,
      In (window.thread_start i o) calls <->
      i = window.file_path app /\ o = output_path /\
      i <> "" /\ path_exists i = true /\ o <> "") /\
  (window.file_path app = "" ->
   app' = app /\
   calls = [window.showwarning "No file selected" "Please select a file first."]) /\
  (window.file_path app <> "" -> path_exists (window.file_path app) = false ->
   app' = app /\
   calls = [window.showerror "File not found"
              "The selected file does not exist."]) /\
  (output_path = "" -> app' = app) /\
  (app' <> app ->
   window.convert_btn app' = window.disabled /\
   window.progress_running app' = true /\
   window.file_path app' = window.file_path app) /\
  (window.file_path app <> "" -> path_exists (window.file_path app) = true ->
   output_path = "" ->
   calls = [window.asksaveasfilename
              (window.initialfile (window.file_path app))]) /\
  (window.file_path app <> "" -> path_exists (window.file_path app) = true ->
   output_path <> "" ->
   app' = window.mkApp (window.file_path app) "Converting... Please wait"
            window.disabled true /\
   calls = [window.asksaveasfilename
              (window.initialfile (window.file_path app));
            window.thread_start (window.file_path app) output_path]).
Proof.
  unfold window.convert_file.
  destruct (String.eqb_spec (window.file_path app) "") as [E|E].
  - refine (conj _ (conj _ (conj _ (conj _ (conj _ (conj _ _)))))).
    + intros i o. split.
      * intros [Hd|[]]. discriminate.
      * intros [-> [_ [Hne _]]]. contradiction.
    + auto.
    + intros Hne. contradiction.
    + auto.
    + intros Hne. now elim Hne.
    + intros Hne. contradiction.
    + intros Hne. contradiction.
  - destruct (path_exists (window.file_path app)) eqn:X; simpl.
    + destruct (String.eqb_spec output_path "") as [O|O].
      * refine (conj _ (conj _ (conj _ (conj _ (conj _ (conj _ _)))))).
        -- intros i o. split.
           ++ intros [Hd|[]]. discriminate.
           ++ intros [_ [-> [_ [_ Hne]]]]. contradiction.
        -- intros Hempty. contradiction.
        -- intros _ Hfalse. discriminate.
        -- auto.
        -- intros Hne. now elim Hne.
        -- auto.
        -- intros _ _ Hne. contradiction.
      * refine (conj _ (conj _ (conj _ (conj _ (conj _ (conj _ _)))))).
        -- intros i o. split.
           ++ intros [Hd|[Hd|[]]]; [discriminate|].
              injection Hd as <- <-. auto.
           ++ intros [-> [-> _]]. right. now left.
        -- intros Hempty. contradiction.
        -- intros _ Hfalse. discriminate.
        -- intros Hempty. contradiction.
        -- intros _. auto.
        -- intros _ _ Hempty. contradiction.
        -- auto.
    + refine (conj _ (conj _ (conj _ (conj _ (conj _ (conj _ _)))))).
      * intros i o. split.
        -- intros [Hd|[]]. discriminate.
        -- intros [-> [_ [_ [Hex _]]]]. congruence.
      * intros Hempty. contradiction.
      * auto.
      * auto.
      * intros Hne. now elim Hne.
      * intros _ Hfalse. discriminate.
      * intros _ Hfalse. discriminate.
Qed.

(** X16. Whatever handlers run, in whatever order and with whatever
    answers from the outside, the progress bar is running exactly when
    the Convert button is disabled. *)
Theorem busy_invariant (events : list window.Event) :
  let app := fst (window.run events window.initial) in
  window.convert_btn app = window.disabled <->
  window.progress_running app = true.
Proof.
  cbn zeta.
  assert (Inv : forall app,
             (window.convert_btn app = window.disabled <->
              window.progress_running app = true) ->
             window.convert_btn (fst (window.run events app)) = window.disabled <->
             window.progress_running (fst (window.run events app)) = true).
  { induction events as [|e rest IH]; intros app H; [exact H|].
    cbn [window.run].
    destruct (window.handle e app) as [app1 calls1] eqn:E1.
    specialize (IH app1).
    destruct (window.run rest app1) as [app2 calls2]. simpl in *.
    apply IH. clear IH.
    destruct e as [text|filename|path_exists output_path|success message];
      simpl in E1.
    - injection E1 as <- _. exact H.
    - unfold window.browse_file in E1.
      destruct (String.eqb filename ""); injection E1 as <- _; exact H.
    - unfold window.convert_file in E1.
      destruct (String.eqb (window.file_path app) "");
        [injection E1 as <- _; exact H|].
      destruct (negb (path_exists (window.file_path app)));
        [injection E1 as <- _; exact H|].
      destruct (String.eqb output_path ""); injection E1 as <- _;
        [exact H | simpl; tauto].
    - unfold window.conversion_complete in E1.
      destruct success; injection E1 as <- _; simpl; split; discriminate. }
  apply Inv. simpl. split; discriminate.
Qed.
